(** * NimBLERemoteDescriptor: blocking read / write over an asynchronous transport

    Shallow embedding of [NimBLERemoteDescriptor.cpp]
    (libesp32/NimBLE-Arduino): the two completion callbacks [onReadCB] and
    [onWriteCB], the blocking calls [readValue] and [writeValue] with their
    retry loops, and [releaseSemaphores].

    The calling task and the host task that delivers callbacks are
    sequentialised: the environment of one public call says, for each pass
    through the retry loop, what the issue call returns, which callbacks
    and releases reach the descriptor while the caller sits in [wait], and
    what [secureConnection] would answer.  Every step the caller takes is
    recorded in a trace. *)

From Stdlib Require Import ZArith List Bool Lia.
From Stdlib Require Import Init.Byte.
From Stdlib Require String DecimalString DecimalPos DecimalZ.
Import ListNotations.
Local Open Scope Z_scope.

(** ** Host constants

    The status values used as [case] labels come from the NimBLE host
    headers, which are not part of the file under study; they are taken as
    parameters.  Each field is the value of the expression named in its
    comment. *)
Record HostCodes := mkHostCodes {
  BLE_HS_EDONE : Z;
  HS_ATT_NOT_LONG : Z;              (* BLE_HS_ATT_ERR(BLE_ATT_ERR_ATTR_NOT_LONG) *)
  HS_ATT_INSUFFICIENT_AUTHEN : Z;   (* BLE_HS_ATT_ERR(BLE_ATT_ERR_INSUFFICIENT_AUTHEN) *)
  HS_ATT_INSUFFICIENT_AUTHOR : Z;   (* BLE_HS_ATT_ERR(BLE_ATT_ERR_INSUFFICIENT_AUTHOR) *)
  HS_ATT_INSUFFICIENT_ENC : Z       (* BLE_HS_ATT_ERR(BLE_ATT_ERR_INSUFFICIENT_ENC) *)
}.

(** The labels of the [switch] in [readValue] and [writeValue], in source
    order.  C rejects a [switch] with two equal labels, so any admissible
    assignment of the constants makes this list duplicate free. *)
Definition case_labels (hc : HostCodes) : list Z :=
  [0; BLE_HS_EDONE hc; HS_ATT_NOT_LONG hc; HS_ATT_INSUFFICIENT_AUTHEN hc;
   HS_ATT_INSUFFICIENT_AUTHOR hc; HS_ATT_INSUFFICIENT_ENC hc].

Definition case_labels_distinct (hc : HostCodes) : Prop := NoDup (case_labels hc).

(** The three statuses that ask for a security upgrade. *)
Definition is_security_status (hc : HostCodes) (s : Z) : Prop :=
  s = HS_ATT_INSUFFICIENT_AUTHEN hc \/
  s = HS_ATT_INSUFFICIENT_AUTHOR hc \/
  s = HS_ATT_INSUFFICIENT_ENC hc.

(** ** The semaphore *)

(** Modelled from the spec: the FreeRTOS semaphore class behind
    [m_semaphoreReadDescrEvt] and [m_semaphoreDescWrite] is not in the file.
    Following the Completion Gate contract: [take] marks the gate held (it
    only delays, never fails); [give v] records [v] and frees the gate;
    [give] without argument frees it and keeps the recorded status; [wait]
    (defined below, over the delivered events) blocks until the gate is
    free and returns the recorded status. *)
Module Semaphore.
Record t := mk { held : bool; status : Z }.
Definition take (s : t) : t := mk true (status s).
Definition give (v : Z) (s : t) : t := mk false v.
Definition give_plain (s : t) : t := mk false (status s).
End Semaphore.

(** ** The descriptor object *)

Record Descriptor := mkDescriptor {
  m_handle : Z;
  m_value : list byte;
  m_semaphoreReadDescrEvt : Semaphore.t;
  m_semaphoreDescWrite : Semaphore.t
}.

Inductive GateId := ReadGate | WriteGate.

Definition gate (g : GateId) (d : Descriptor) : Semaphore.t :=
  match g with
  | ReadGate => m_semaphoreReadDescrEvt d
  | WriteGate => m_semaphoreDescWrite d
  end.

Definition set_gate (g : GateId) (s : Semaphore.t) (d : Descriptor) : Descriptor :=
  match g with
  | ReadGate => mkDescriptor (m_handle d) (m_value d) s (m_semaphoreDescWrite d)
  | WriteGate => mkDescriptor (m_handle d) (m_value d) (m_semaphoreReadDescrEvt d) s
  end.

Definition set_value (v : list byte) (d : Descriptor) : Descriptor :=
  mkDescriptor (m_handle d) v (m_semaphoreReadDescrEvt d) (m_semaphoreDescWrite d).

(** ** What the transport does to the descriptor *)

(** One thing the host task does to the descriptor: a read callback (with
    [attr = None] for a null attribute, otherwise the bytes of the
    fragment), a write callback, or the disconnect path calling
    [releaseSemaphores]. *)
Inductive Event :=
| EvReadCB (conn_handle status : Z) (attr : option (list byte))
| EvWriteCB (conn_handle status : Z)
| EvRelease.

(** One pass through the retry loop as the environment answers it. *)
Record Attempt := mkAttempt {
  issue_rc : Z;            (* what the ble_gattc_* call returns *)
  events : list Event;     (* delivered while the caller is in wait *)
  secure_ok : bool         (* what pClient->secureConnection() returns *)
}.

Record Env := mkEnv {
  isConnected : bool;
  getConnId : Z;
  ble_att_mtu : Z;
  attempt : nat -> Attempt
}.

(** ** What the caller does, as a trace *)

Inductive Request :=
| ReadLong (conn handle offset : Z)          (* ble_gattc_read_long *)
| WriteNoRsp (conn handle len : Z)           (* ble_gattc_write_no_rsp_flat *)
| WriteFlat (conn handle len : Z)            (* ble_gattc_write_flat *)
| WriteLong (conn handle offset len : Z).    (* ble_gattc_write_long *)

Inductive Action :=
| ActTake (g : GateId)
| ActGive (g : GateId) (v : option Z)
| ActWait (g : GateId)
| ActRequest (r : Request)
| ActSecure (ok : bool).

(** [Running] is the state of a call that has not finished within the
    given number of loop passes; [BlockedInWait] is a call whose [wait]
    was never released. *)
Inductive Outcome (A : Type) :=
| Returned (a : A)
| BlockedInWait
| Running.
Arguments Returned {A} a.
Arguments BlockedInWait {A}.
Arguments Running {A}.

Record Result (A : Type) := mkResult {
  outcome : Outcome A;
  trace : list Action;
  final : Descriptor
}.
Arguments mkResult {A} _ _ _.
Arguments outcome {A} _.
Arguments trace {A} _.
Arguments final {A} _.

Definition requests (tr : list Action) : list Request :=
  flat_map (fun a => match a with ActRequest r => [r] | _ => [] end) tr.

Definition n_requests (tr : list Action) : nat := length (requests tr).

Definition is_some {A} (o : option A) : bool :=
  match o with Some _ => true | None => false end.

Inductive StatusCase := CaseDone | CaseNotLong | CaseSecurity | CaseDefault.

Section Model.
Variable hc : HostCodes.
Variable env : Env.

(** *** Callbacks *)

(** [onReadCB]: ignores a callback of another connection; appends the
    fragment when [status == 0] and [attr] is not null; otherwise gives
    the read semaphore with the status.  The C function always returns 0. *)
Definition onReadCB (conn_handle status : Z) (attr : option (list byte))
           (desc : Descriptor) : Z * Descriptor :=
  let conn_id := getConnId env in
  if negb (conn_id =? conn_handle) then (0, desc)
  else
    match (status =? 0), attr with
    | true, Some om => (0, set_value (m_value desc ++ om) desc)
    | _, _ =>
        (0, set_gate ReadGate
              (Semaphore.give status (m_semaphoreReadDescrEvt desc)) desc)
    end.

(** [onWriteCB]: ignores a callback of another connection, otherwise
    gives the write semaphore with the status. *)
Definition onWriteCB (conn_handle status : Z) (descriptor : Descriptor)
  : Z * Descriptor :=
  if negb (getConnId env =? conn_handle) then (0, descriptor)
  else (0, set_gate WriteGate
             (Semaphore.give status (m_semaphoreDescWrite descriptor)) descriptor).

(** [releaseSemaphores]: give(1) on the write gate, then on the read gate. *)
Definition releaseSemaphores (d : Descriptor) : Descriptor :=
  let d1 := set_gate WriteGate (Semaphore.give 1 (m_semaphoreDescWrite d)) d in
  set_gate ReadGate (Semaphore.give 1 (m_semaphoreReadDescrEvt d1)) d1.

Definition deliver (e : Event) (d : Descriptor) : Descriptor :=
  match e with
  | EvReadCB c st attr => snd (onReadCB c st attr d)
  | EvWriteCB c st => snd (onWriteCB c st d)
  | EvRelease => releaseSemaphores d
  end.

(** [wait] on gate [g]: while the gate is held the next event is
    delivered; once it is free the recorded status is returned.  Events
    left over after the caller is woken are not delivered to this call.
    [None] is a caller that is never woken. *)
Fixpoint wait (g : GateId) (evs : list Event) (d : Descriptor)
  : option Z * Descriptor :=
  if Semaphore.held (gate g d) then
    match evs with
    | [] => (None, d)
    | e :: evs' => wait g evs' (deliver e d)
    end
  else (Some (Semaphore.status (gate g d)), d).

(** *** The switch on the status returned by wait *)

Definition switch_case (rc : Z) : StatusCase :=
  if (rc =? 0) || (rc =? BLE_HS_EDONE hc) then CaseDone
  else if rc =? HS_ATT_NOT_LONG hc then CaseNotLong
  else if (rc =? HS_ATT_INSUFFICIENT_AUTHEN hc)
          || (rc =? HS_ATT_INSUFFICIENT_AUTHOR hc)
          || (rc =? HS_ATT_INSUFFICIENT_ENC hc) then CaseSecurity
  else CaseDefault.

(** *** readValue *)

(** One pass of the [do { ... } while (rc != 0 && retryCount--)] loop of
    [readValue]; [loop] is the rest of the loop, [k] counts the passes. *)
Definition readValue_body
           (loop : nat -> Z -> Descriptor -> list Action -> Result (list byte))
           (k : nat) (retryCount : Z) (d : Descriptor) (tr : list Action)
  : Result (list byte) :=
  let a := attempt env k in
  let d1 := set_gate ReadGate (Semaphore.take (m_semaphoreReadDescrEvt d)) d in
  let tr1 := tr ++ [ActTake ReadGate;
                    ActRequest (ReadLong (getConnId env) (m_handle d1) 0)] in
  let rc := issue_rc a in
  if negb (rc =? 0) then
    mkResult (Returned [])
             (tr1 ++ [ActGive ReadGate (Some 0)])
             (set_gate ReadGate (Semaphore.give 0 (m_semaphoreReadDescrEvt d1)) d1)
  else
    let tr2 := tr1 ++ [ActWait ReadGate] in
    match wait ReadGate (events a) d1 with
    | (None, d2) => mkResult BlockedInWait tr2 d2
    | (Some rc, d2) =>
        (* the switch: either return, or break with the new rc *)
        let after_switch (rc : Z) (tr3 : list Action) :=
          (* while (rc != 0 && retryCount--) *)
          if negb (rc =? 0) then
            if negb (retryCount =? 0) then loop (S k) (retryCount - 1) d2 tr3
            else mkResult (Returned (m_value d2)) tr3 d2
          else mkResult (Returned (m_value d2)) tr3 d2 in
        match switch_case rc with
        | CaseDone => after_switch 0 tr2
        | CaseNotLong => after_switch 0 tr2
        | CaseSecurity =>
            if negb (retryCount =? 0) then
              let tr3 := tr2 ++ [ActSecure (secure_ok a)] in
              if secure_ok a then after_switch rc tr3
              else mkResult (Returned []) tr3 d2
            else mkResult (Returned []) tr2 d2
        | CaseDefault => mkResult (Returned []) tr2 d2
        end
    end.

Fixpoint readValue_loop (fuel : nat) (k : nat) (retryCount : Z)
         (d : Descriptor) (tr : list Action) : Result (list byte) :=
  match fuel with
  | O => mkResult Running tr d
  | S fuel' => readValue_body (readValue_loop fuel') k retryCount d tr
  end.

(** [readValue]: [retryCount = 1], the value is cleared, the connection
    is checked, then the loop runs. *)
Definition readValue (fuel : nat) (d : Descriptor) : Result (list byte) :=
  let retryCount := 1 in
  let d0 := set_value [] d in
  if negb (isConnected env) then mkResult (Returned []) [] d0
  else readValue_loop fuel 0 retryCount d0 [].

(** *** writeValue *)

(** [mtu = ble_att_mtu(conn) - 3], stored in a [uint16_t]. *)
Definition mtu : Z := (ble_att_mtu env - 3) mod 65536.

(** One pass of the loop of [writeValue].  The data pointer never
    changes, so a request is identified by the length passed with it.
    For a long write the data goes through [ble_hs_mbuf_from_flat(data,
    length)], whose length parameter is a [uint16_t]: the mbuf handed to
    [ble_gattc_write_long] holds [length mod 2^16] bytes.  A single write
    is only reached with [length <= mtu], which fits. *)
Definition writeValue_body
           (loop : nat -> Z -> Z -> Descriptor -> list Action -> Result bool)
           (k : nat) (retryCount : Z) (length : Z)
           (d : Descriptor) (tr : list Action) : Result bool :=
  let a := attempt env k in
  let d1 := set_gate WriteGate (Semaphore.take (m_semaphoreDescWrite d)) d in
  let req := if length >? mtu
             then WriteLong (getConnId env) (m_handle d1) 0 (length mod 65536)
             else WriteFlat (getConnId env) (m_handle d1) length in
  let tr1 := tr ++ [ActTake WriteGate; ActRequest req] in
  let rc := issue_rc a in
  if negb (rc =? 0) then
    mkResult (Returned false)
             (tr1 ++ [ActGive WriteGate None])
             (set_gate WriteGate (Semaphore.give_plain (m_semaphoreDescWrite d1)) d1)
  else
    let tr2 := tr1 ++ [ActWait WriteGate] in
    match wait WriteGate (events a) d1 with
    | (None, d2) => mkResult BlockedInWait tr2 d2
    | (Some rc, d2) =>
        let after_switch (rc retryCount length : Z) (tr3 : list Action) :=
          (* while (rc != 0 && retryCount--) ... return (rc == 0) *)
          if negb (rc =? 0) then
            if negb (retryCount =? 0) then loop (S k) (retryCount - 1) length d2 tr3
            else mkResult (Returned (rc =? 0)) tr3 d2
          else mkResult (Returned (rc =? 0)) tr3 d2 in
        match switch_case rc with
        | CaseDone => after_switch 0 retryCount length tr2
        | CaseNotLong => after_switch rc (retryCount + 1) mtu tr2
        | CaseSecurity =>
            if negb (retryCount =? 0) then
              let tr3 := tr2 ++ [ActSecure (secure_ok a)] in
              if secure_ok a then after_switch rc retryCount length tr3
              else mkResult (Returned false) tr3 d2
            else mkResult (Returned false) tr2 d2
        | CaseDefault => mkResult (Returned false) tr2 d2
        end
    end.

Fixpoint writeValue_loop (fuel : nat) (k : nat) (retryCount : Z) (length : Z)
         (d : Descriptor) (tr : list Action) : Result bool :=
  match fuel with
  | O => mkResult Running tr d
  | S fuel' => writeValue_body (writeValue_loop fuel') k retryCount length d tr
  end.

(** [writeValue(data, length, response)]. *)
Definition writeValue (fuel : nat) (length : Z) (response : bool)
           (d : Descriptor) : Result bool :=
  let retryCount := 1 in
  if negb (isConnected env) then mkResult (Returned false) [] d
  else
    if (length <=? mtu) && negb response then
      let rc := issue_rc (attempt env 0) in
      mkResult (Returned (rc =? 0))
               [ActRequest (WriteNoRsp (getConnId env) (m_handle d) length)] d
    else writeValue_loop fuel 0 retryCount length d [].

(** The request a pass of the write loop issues when it is entered with
    [length]: a long write when [length > mtu] (of the [length mod 2^16]
    bytes the mbuf holds), otherwise an acknowledged single write. *)
Definition write_request (length : Z) (d : Descriptor) : Request :=
  if length >? mtu
  then WriteLong (getConnId env) (m_handle d) 0 (length mod 65536)
  else WriteFlat (getConnId env) (m_handle d) length.

(** *** What an attempt's events amount to *)

(** Does this event give gate [g]?  With which status? *)
Definition signals (g : GateId) (e : Event) : option Z :=
  match g, e with
  | _, EvRelease => Some 1
  | ReadGate, EvReadCB c st attr =>
      if negb (getConnId env =? c) then None
      else if (st =? 0) && is_some attr then None else Some st
  | WriteGate, EvWriteCB c st =>
      if negb (getConnId env =? c) then None else Some st
  | _, _ => None
  end.

(** The status with which the caller waiting on [g] is woken, if ever. *)
Fixpoint completion (g : GateId) (evs : list Event) : option Z :=
  match evs with
  | [] => None
  | e :: evs' =>
      match signals g e with
      | Some st => Some st
      | None => completion g evs'
      end
  end.

(** The bytes appended to [m_value] by the events delivered up to and
    including the one that wakes a caller waiting on [g]. *)
Fixpoint fragments (g : GateId) (evs : list Event) : list byte :=
  match evs with
  | [] => []
  | e :: evs' =>
      let here := match e with
                  | EvReadCB c st (Some om) =>
                      if (getConnId env =? c) && (st =? 0) then om else []
                  | _ => []
                  end in
      match signals g e with
      | Some _ => here
      | None => here ++ fragments g evs'
      end
  end.

(** The callbacks of a read delivered in data-carrying pieces: each has
    the client's connection handle, status 0 and a non-null attribute. *)
Definition data_events (frags : list (list byte)) : list Event :=
  map (fun om => EvReadCB (getConnId env) 0 (Some om)) frags.

(** Number of passes among [k, k+n) whose write completes with the
    not-long status. *)
Fixpoint not_long_count (k n : nat) : nat :=
  match n with
  | O => O
  | S n' =>
      (match completion WriteGate (events (attempt env k)) with
       | Some st => match switch_case st with CaseNotLong => 1 | _ => 0 end
       | None => 0
       end + not_long_count (S k) n')%nat
  end.

End Model.

Arguments mtu env : clear implicits.

(** ** Concrete environments

    Used to run the model: the constants as the NimBLE host headers define
    them ([BLE_HS_EDONE = 14], [BLE_HS_ATT_ERR(x) = 0x100 + x]), a
    descriptor with handle 42 and free gates, and a few scripted peers. *)

Definition nimble_codes : HostCodes :=
  mkHostCodes 14 (256 + 11) (256 + 5) (256 + 8) (256 + 15).

Definition idle_descriptor : Descriptor :=
  mkDescriptor 42 [] (Semaphore.mk false 0) (Semaphore.mk false 0).

(** A descriptor that still holds the value of an earlier read. *)
Definition used_descriptor : Descriptor :=
  mkDescriptor 42 ["z"%byte] (Semaphore.mk false 0) (Semaphore.mk false 0).

(** An attempt that is issued and completed with success, on either path. *)
Definition acked : Attempt :=
  mkAttempt 0 [EvReadCB 7 14 None; EvWriteCB 7 0] false.

(** The peer answers the passes of a call as listed, and acknowledges
    whatever comes after. *)
Definition script (l : list Attempt) : nat -> Attempt :=
  fun k => nth k l acked.

(** Connection 7, MTU 23. *)
Definition peer (l : list Attempt) : Env := mkEnv true 7 23 (script l).

Definition offline_peer : Env := mkEnv false 7 23 (script []).

(** A read whose first attempt delivers one fragment and is then refused
    for insufficient authentication; after the upgrade the second attempt
    delivers one fragment and ends. *)
Definition late_refusal_peer : Env :=
  peer [mkAttempt 0 [EvReadCB 7 0 (Some ["A"%byte]);
                     EvReadCB 7 (256 + 5) None] true;
        mkAttempt 0 [EvReadCB 7 0 (Some ["B"%byte]);
                     EvReadCB 7 14 None] false].

(** A write: the long write is refused as not long, the truncated write
    is refused for insufficient encryption, the write after the upgrade is
    accepted. *)
Definition truncate_then_secure_peer : Env :=
  peer [mkAttempt 0 [EvWriteCB 7 (256 + 11)] false;
        mkAttempt 0 [EvWriteCB 7 (256 + 15)] true;
        mkAttempt 0 [EvWriteCB 7 0] false].

(** A peer that answers every write with the not-long status. *)
Definition always_not_long_peer : Env :=
  mkEnv true 7 23 (fun _ => mkAttempt 0 [EvWriteCB 7 (256 + 11)] false).

(** ** The rest of the class *)

(** *** readUInt8, readUInt16, readUInt32 *)

Definition uint8_of (b : byte) : Z := Z.of_N (Byte.to_N b).

(** [readUInt16] and [readUInt32] dereference [value.data()] cast to a
    pointer to [uint16_t] or [uint32_t]: the first bytes of the string
    read as an unsigned integer in the byte order of the machine.  The
    ESP32 targets of this library are little-endian. *)
Fixpoint le_uint (bs : list byte) : Z :=
  match bs with
  | [] => 0
  | b :: bs' => uint8_of b + 256 * le_uint bs'
  end.

Definition map_result {A B : Type} (f : A -> B) (r : Result A) : Result B :=
  mkResult (match outcome r with
            | Returned a => Returned (f a)
            | BlockedInWait => BlockedInWait
            | Running => Running
            end)
           (trace r) (final r).

Definition readUInt8 (hc : HostCodes) (env : Env) (fuel : nat) (d : Descriptor)
  : Result Z :=
  map_result (fun value =>
                if (1 <=? length value)%nat then uint8_of (nth 0 value x00) else 0)
             (readValue hc env fuel d).

Definition readUInt16 (hc : HostCodes) (env : Env) (fuel : nat) (d : Descriptor)
  : Result Z :=
  map_result (fun value =>
                if (2 <=? length value)%nat then le_uint (firstn 2 value) else 0)
             (readValue hc env fuel d).

Definition readUInt32 (hc : HostCodes) (env : Env) (fuel : nat) (d : Descriptor)
  : Result Z :=
  map_result (fun value =>
                if (4 <=? length value)%nat then le_uint (firstn 4 value) else 0)
             (readValue hc env fuel d).

(** *** The writeValue overloads *)

(** [writeValue(const std::string &newValue, bool response)]. *)
Definition writeValue_string (hc : HostCodes) (env : Env) (fuel : nat)
           (newValue : list byte) (response : bool) (d : Descriptor) : Result bool :=
  writeValue hc env fuel (Z.of_nat (length newValue)) response d.

(** [writeValue(uint8_t newValue, bool response)]: the address of the
    argument and length 1. *)
Definition writeValue_uint8 (hc : HostCodes) (env : Env) (fuel : nat)
           (newValue : byte) (response : bool) (d : Descriptor) : Result bool :=
  writeValue hc env fuel 1 response d.

(** *** toString *)

Module Diagnostics.
Import String.
Local Open Scope string_scope.

(** [snprintf(val, size, "%d", n)]: the decimal digits of [n], cut to the
    [size - 1] characters that fit before the terminating NUL. *)
Definition snprintf_d (size : nat) (n : Z) : string :=
  substring 0 (size - 1) (DecimalString.NilZero.string_of_int (Z.to_int n)).

(** [toString]; [uuid] is what [getUUID().toString()] returns (the UUID
    class is not part of the file). *)
Definition toString (uuid : string) (d : Descriptor) : string :=
  let res := "Descriptor: uuid: " ++ uuid in
  let val := snprintf_d 6 (m_handle d) in
  let res := res ++ ", handle: " in
  res ++ val.

End Diagnostics.

(** Exhaustive check of a property of the [bits]-bit unsigned integers. *)
Fixpoint all_below (bits : nat) (f : Z -> bool) : bool :=
  match bits with
  | O => f 0
  | S b => all_below b (fun z => f (2 * z)) && all_below b (fun z => f (2 * z + 1))
  end.

(** *** Observations on traces and environments *)

(** How often the call asked [secureConnection]. *)
Definition n_secure (tr : list Action) : nat :=
  List.length (filter (fun a => match a with ActSecure _ => true | _ => false end) tr).

(** A callback that carries another connection's handle. *)
Definition stale (env : Env) (e : Event) : bool :=
  match e with
  | EvReadCB c _ _ => negb (getConnId env =? c)
  | EvWriteCB c _ => negb (getConnId env =? c)
  | EvRelease => false
  end.

(** The same environment without the callbacks of other connections. *)
Definition drop_stale (env : Env) : Env :=
  mkEnv (isConnected env) (getConnId env) (ble_att_mtu env)
        (fun k => let a := attempt env k in
                  mkAttempt (issue_rc a)
                            (filter (fun e => negb (stale env e)) (events a))
                            (secure_ok a)).

(** What [writeValue] may hand to the transport for a call with [length]:
    the descriptor's handle on the client's connection; a no-response or
    single write of at most [mtu] bytes, the caller's length or [mtu]; a
    long write only when the caller's length is above [mtu], from offset
    0, of the caller's length as a [uint16_t]. *)
Definition write_request_ok (env : Env) (handle length : Z) (r : Request) : Prop :=
  match r with
  | ReadLong _ _ _ => False
  | WriteNoRsp c h l =>
      c = getConnId env /\ h = handle /\ l = length /\ l <= mtu env
  | WriteFlat c h l =>
      c = getConnId env /\ h = handle /\ l <= mtu env /\ (l = length \/ l = mtu env)
  | WriteLong c h o l =>
      c = getConnId env /\ h = handle /\ o = 0 /\
      mtu env < length /\ l = length mod 65536
  end.

(** * Proofs *)

(** ** The switch *)

Section Switch.
Variable hc : HostCodes.

Lemma switch_case_zero : switch_case hc 0 = CaseDone.
Proof. reflexivity. Qed.

Lemma switch_case_edone : switch_case hc (BLE_HS_EDONE hc) = CaseDone.
Proof.
  unfold switch_case. rewrite Z.eqb_refl, orb_true_r. reflexivity.
Qed.

Lemma switch_case_unlisted (s : Z) :
  ~ In s (case_labels hc) -> switch_case hc s = CaseDefault.
Proof.
  unfold case_labels, switch_case; cbn [In]; intros H.
  repeat match goal with
         | |- context [?a =? ?b] =>
             destruct (Z.eqb_spec a b); [exfalso; apply H; intuition congruence|]
         end.
  reflexivity.
Qed.

Hypothesis labels_distinct : case_labels_distinct hc.

Lemma labels_apart :
  BLE_HS_EDONE hc <> 0 /\
  HS_ATT_NOT_LONG hc <> 0 /\ HS_ATT_NOT_LONG hc <> BLE_HS_EDONE hc /\
  (forall s, is_security_status hc s ->
             s <> 0 /\ s <> BLE_HS_EDONE hc /\ s <> HS_ATT_NOT_LONG hc).
Proof.
  pose proof labels_distinct as H.
  unfold case_labels_distinct, case_labels in H.
  repeat rewrite NoDup_cons_iff in H. cbn [In] in H.
  unfold is_security_status.
  repeat split; try (intros; intuition congruence).
Qed.

Lemma switch_case_not_long : switch_case hc (HS_ATT_NOT_LONG hc) = CaseNotLong.
Proof.
  destruct labels_apart as (_ & H0 & H1 & _). unfold switch_case.
  destruct (Z.eqb_spec (HS_ATT_NOT_LONG hc) 0); [contradiction|].
  destruct (Z.eqb_spec (HS_ATT_NOT_LONG hc) (BLE_HS_EDONE hc)); [contradiction|].
  rewrite Z.eqb_refl. reflexivity.
Qed.

Lemma switch_case_security (s : Z) :
  is_security_status hc s -> switch_case hc s = CaseSecurity.
Proof.
  intros Hs. destruct labels_apart as (_ & _ & _ & H).
  destruct (H s Hs) as (H0 & H1 & H2). unfold switch_case.
  destruct (Z.eqb_spec s 0); [contradiction|].
  destruct (Z.eqb_spec s (BLE_HS_EDONE hc)); [contradiction|].
  destruct (Z.eqb_spec s (HS_ATT_NOT_LONG hc)); [contradiction|].
  cbn [orb].
  destruct Hs as [-> | [-> | ->]]; rewrite Z.eqb_refl;
    rewrite ?orb_true_r; reflexivity.
Qed.

End Switch.

(** A status handled by the security case is never 0: the [case 0] label
    is tested first. *)
Lemma switch_case_security_nonzero (hc : HostCodes) (s : Z) :
  switch_case hc s = CaseSecurity -> (s =? 0) = false.
Proof.
  unfold switch_case. destruct (s =? 0); [discriminate | reflexivity].
Qed.

Lemma switch_case_not_long_nonzero (hc : HostCodes) (s : Z) :
  switch_case hc s = CaseNotLong -> (s =? 0) = false.
Proof.
  unfold switch_case. destruct (s =? 0); [discriminate | reflexivity].
Qed.

Lemma nimble_labels_distinct : case_labels_distinct nimble_codes.
Proof.
  unfold case_labels_distinct, case_labels; cbn.
  repeat (constructor; [cbn; intuition discriminate|]). constructor.
Qed.

(** ** Waiting *)

Section Waiting.
Variable env : Env.

Lemma wait_free (g : GateId) (evs : list Event) (d : Descriptor) :
  Semaphore.held (gate g d) = false ->
  wait env g evs d = (Some (Semaphore.status (gate g d)), d).
Proof. intros H. destruct evs; cbn; rewrite H; reflexivity. Qed.

(** One delivered event: either it gives gate [g] with the status
    [signals] announces, or it leaves the gate as it was. *)
Lemma deliver_gate (g : GateId) (e : Event) (d : Descriptor) :
  gate g (deliver env e d) =
  match signals env g e with
  | Some st => Semaphore.mk false st
  | None => gate g d
  end.
Proof.
  destruct e as [c st attr | c st |]; destruct g; cbn;
    unfold onReadCB, onWriteCB;
    try (destruct (getConnId env =? c); cbn;
         try destruct (st =? 0); try destruct attr; reflexivity);
    reflexivity.
Qed.

Lemma deliver_handle (e : Event) (d : Descriptor) :
  m_handle (deliver env e d) = m_handle d.
Proof.
  destruct e as [c st attr | c st |]; cbn; unfold onReadCB, onWriteCB;
    try (destruct (getConnId env =? c); cbn;
         try destruct (st =? 0); try destruct attr; reflexivity);
    reflexivity.
Qed.

Lemma deliver_value (e : Event) (d : Descriptor) :
  m_value (deliver env e d) =
  m_value d ++ match e with
               | EvReadCB c st (Some om) =>
                   if (getConnId env =? c) && (st =? 0) then om else []
               | _ => []
               end.
Proof.
  destruct e as [c st attr | c st |]; cbn; unfold onReadCB, onWriteCB;
    try (destruct (getConnId env =? c); cbn;
         try destruct (st =? 0); try destruct attr; cbn;
         rewrite ?app_nil_r; reflexivity);
    rewrite ?app_nil_r; reflexivity.
Qed.

(** A waiting caller is woken with [completion], sees the value grown by
    [fragments], and finds the handle untouched. *)
Lemma wait_held (g : GateId) (evs : list Event) :
  forall d, Semaphore.held (gate g d) = true ->
    fst (wait env g evs d) = completion env g evs /\
    m_value (snd (wait env g evs d)) = m_value d ++ fragments env g evs /\
    m_handle (snd (wait env g evs d)) = m_handle d.
Proof.
  induction evs as [|e evs IH]; intros d Hd; cbn [wait]; rewrite Hd.
  - cbn. rewrite app_nil_r. auto.
  - cbn [completion fragments].
    pose proof (deliver_gate g e d) as Hg.
    pose proof (deliver_value e d) as Hv.
    pose proof (deliver_handle e d) as Hh.
    destruct (signals env g e) as [st|].
    + rewrite wait_free by (rewrite Hg; reflexivity).
      cbn [fst snd]. rewrite Hg, Hv, Hh. cbn. auto.
    + destruct (IH (deliver env e d)) as (H1 & H2 & H3).
      { rewrite Hg. exact Hd. }
      rewrite H1, H2, H3, Hv, Hh, app_assoc. auto.
Qed.

Lemma wait_after_take (g : GateId) (evs : list Event) (d : Descriptor) :
  let d1 := set_gate g (Semaphore.take (gate g d)) d in
  exists d2,
    wait env g evs d1 = (completion env g evs, d2) /\
    m_value d2 = m_value d ++ fragments env g evs /\
    m_handle d2 = m_handle d.
Proof.
  intros d1.
  destruct (wait_held g evs d1) as (H1 & H2 & H3).
  { destruct g; reflexivity. }
  exists (snd (wait env g evs d1)).
  rewrite <- H1, H2, H3. split; [apply surjective_pairing|].
  destruct g; auto.
Qed.

End Waiting.

(** ** Traces *)

Lemma requests_app (t1 t2 : list Action) :
  requests (t1 ++ t2) = requests t1 ++ requests t2.
Proof. unfold requests. apply flat_map_app. Qed.

(** Case analysis on everything a loop body branches on. *)
Ltac split_body :=
  repeat match goal with
         | |- context [if ?b then _ else _] => destruct b eqn:?
         | |- context [match ?x with _ => _ end] => destruct x eqn:?
         end.

Ltac count_requests :=
  unfold n_requests, requests in *; cbn [trace];
  rewrite ?flat_map_app, ?length_app; cbn [flat_map app length]; lia.

(** ** The loops *)

Section Loops.
Variable hc : HostCodes.
Variable env : Env.

Lemma readValue_loop_S fuel k retryCount d tr :
  readValue_loop hc env (S fuel) k retryCount d tr =
  readValue_body hc env (readValue_loop hc env fuel) k retryCount d tr.
Proof. reflexivity. Qed.

Lemma writeValue_loop_S fuel k retryCount length d tr :
  writeValue_loop hc env (S fuel) k retryCount length d tr =
  writeValue_body hc env (writeValue_loop hc env fuel) k retryCount length d tr.
Proof. reflexivity. Qed.

(** *** One pass of the read loop, by what the environment answers *)

Lemma readValue_body_issue_failed loop k retryCount d tr :
  issue_rc (attempt env k) <> 0 ->
  readValue_body hc env loop k retryCount d tr =
  mkResult (Returned [])
           (tr ++ [ActTake ReadGate;
                   ActRequest (ReadLong (getConnId env) (m_handle d) 0);
                   ActGive ReadGate (Some 0)])
           (set_gate ReadGate (Semaphore.mk false 0) d).
Proof.
  intros H. unfold readValue_body.
  apply Z.eqb_neq in H. rewrite H. cbn [negb].
  rewrite <- app_assoc. reflexivity.
Qed.

Lemma readValue_body_waited loop k retryCount d tr :
  issue_rc (attempt env k) = 0 ->
  let a := attempt env k in
  let tr2 := tr ++ [ActTake ReadGate;
                    ActRequest (ReadLong (getConnId env) (m_handle d) 0);
                    ActWait ReadGate] in
  exists d2,
    m_value d2 = m_value d ++ fragments env ReadGate (events a) /\
    m_handle d2 = m_handle d /\
    readValue_body hc env loop k retryCount d tr =
    match completion env ReadGate (events a) with
    | None => mkResult BlockedInWait tr2 d2
    | Some s =>
        match switch_case hc s with
        | CaseDone | CaseNotLong => mkResult (Returned (m_value d2)) tr2 d2
        | CaseSecurity =>
            if retryCount =? 0 then mkResult (Returned []) tr2 d2
            else if secure_ok a
                 then loop (S k) (retryCount - 1) d2 (tr2 ++ [ActSecure true])
                 else mkResult (Returned []) (tr2 ++ [ActSecure false]) d2
        | CaseDefault => mkResult (Returned []) tr2 d2
        end
    end.
Proof.
  intros H a tr2.
  destruct (wait_after_take env ReadGate (events a) d) as (d2 & Hw & Hv & Hh).
  exists d2. split; [exact Hv|]. split; [exact Hh|].
  unfold readValue_body. rewrite H. cbn [Z.eqb negb]. fold a.
  cbn [gate] in Hw. rewrite Hw.
  replace ((tr ++ [ActTake ReadGate;
                   ActRequest (ReadLong (getConnId env)
                     (m_handle (set_gate ReadGate
                        (Semaphore.take (m_semaphoreReadDescrEvt d)) d)) 0)])
           ++ [ActWait ReadGate]) with tr2
    by (unfold tr2; rewrite <- app_assoc; reflexivity).
  destruct (completion env ReadGate (events a)) as [s|]; [|reflexivity].
  destruct (switch_case hc s) eqn:Hs; try reflexivity.
  destruct (retryCount =? 0); cbn [negb]; [reflexivity|].
  destruct (secure_ok a); [|reflexivity].
  rewrite (switch_case_security_nonzero hc s Hs). reflexivity.
Qed.

(** *** One pass of the write loop *)

Lemma writeValue_body_issue_failed loop k retryCount length d tr :
  issue_rc (attempt env k) <> 0 ->
  writeValue_body hc env loop k retryCount length d tr =
  mkResult (Returned false)
           (tr ++ [ActTake WriteGate; ActRequest (write_request env length d);
                   ActGive WriteGate None])
           (set_gate WriteGate
              (Semaphore.mk false (Semaphore.status (m_semaphoreDescWrite d))) d).
Proof.
  intros H. unfold writeValue_body.
  apply Z.eqb_neq in H. rewrite H. cbn [negb].
  rewrite <- app_assoc. reflexivity.
Qed.

Lemma writeValue_body_waited loop k retryCount length d tr :
  issue_rc (attempt env k) = 0 ->
  0 <= retryCount ->
  let a := attempt env k in
  let tr2 := tr ++ [ActTake WriteGate; ActRequest (write_request env length d);
                    ActWait WriteGate] in
  exists d2,
    m_value d2 = m_value d ++ fragments env WriteGate (events a) /\
    m_handle d2 = m_handle d /\
    writeValue_body hc env loop k retryCount length d tr =
    match completion env WriteGate (events a) with
    | None => mkResult BlockedInWait tr2 d2
    | Some s =>
        match switch_case hc s with
        | CaseDone => mkResult (Returned true) tr2 d2
        | CaseNotLong => loop (S k) retryCount (mtu env) d2 tr2
        | CaseSecurity =>
            if retryCount =? 0 then mkResult (Returned false) tr2 d2
            else if secure_ok a
                 then loop (S k) (retryCount - 1) length d2 (tr2 ++ [ActSecure true])
                 else mkResult (Returned false) (tr2 ++ [ActSecure false]) d2
        | CaseDefault => mkResult (Returned false) tr2 d2
        end
    end.
Proof.
  intros H Hrc a tr2.
  destruct (wait_after_take env WriteGate (events a) d) as (d2 & Hw & Hv & Hh).
  exists d2. split; [exact Hv|]. split; [exact Hh|].
  unfold writeValue_body. rewrite H. cbn [Z.eqb negb]. fold a.
  cbn [gate] in Hw. rewrite Hw.
  replace ((tr ++ [ActTake WriteGate;
                   ActRequest
                     (if length >? mtu env
                      then WriteLong (getConnId env)
                             (m_handle (set_gate WriteGate
                                (Semaphore.take (m_semaphoreDescWrite d)) d)) 0
                             (length mod 65536)
                      else WriteFlat (getConnId env)
                             (m_handle (set_gate WriteGate
                                (Semaphore.take (m_semaphoreDescWrite d)) d)) length)])
           ++ [ActWait WriteGate]) with tr2
    by (unfold tr2; rewrite <- app_assoc; reflexivity).
  destruct (completion env WriteGate (events a)) as [s|]; [|reflexivity].
  destruct (switch_case hc s) eqn:Hs; try reflexivity.
  - rewrite (switch_case_not_long_nonzero hc s Hs). cbn [negb].
    destruct (Z.eqb_spec (retryCount + 1) 0); [lia|]. cbn [negb].
    rewrite Z.add_simpl_r. reflexivity.
  - destruct (retryCount =? 0); cbn [negb]; [reflexivity|].
    destruct (secure_ok a); [|reflexivity].
    rewrite (switch_case_security_nonzero hc s Hs). reflexivity.
Qed.

End Loops.

(** ** How many passes the loops make *)

Section Bounds.
Variable hc : HostCodes.
Variable env : Env.

(** The read loop issues at most [retryCount + 1] requests. *)
Lemma readValue_loop_requests (fuel : nat) :
  forall k retryCount d tr, 0 <= retryCount ->
    (n_requests (trace (readValue_loop hc env fuel k retryCount d tr))
     <= n_requests tr + Z.to_nat retryCount + 1)%nat.
Proof.
  induction fuel as [|fuel IH]; intros k rc d tr Hrc; cbn [readValue_loop].
  - count_requests.
  - destruct (Z.eq_dec (issue_rc (attempt env k)) 0) as [Hi|Hi].
    + destruct (readValue_body_waited hc env (readValue_loop hc env fuel)
                  k rc d tr Hi) as (d2 & _ & _ & ->).
      destruct (completion env ReadGate (events (attempt env k))) as [s|];
        [destruct (switch_case hc s)|];
        try (count_requests).
      destruct (Z.eqb_spec rc 0);
        [count_requests|].
      destruct (secure_ok (attempt env k)).
      * etransitivity; [apply IH; lia|].
        count_requests.
      * count_requests.
    + rewrite readValue_body_issue_failed by exact Hi.
      count_requests.
Qed.

(** With [retryCount + 1] passes allowed and a transport that completes
    every request, the read loop returns. *)
Lemma readValue_loop_returns (fuel : nat) :
  (forall i, completion env ReadGate (events (attempt env i)) <> None) ->
  forall k retryCount d tr, 0 <= retryCount ->
    (Z.to_nat retryCount < fuel)%nat ->
    exists v, outcome (readValue_loop hc env fuel k retryCount d tr) = Returned v.
Proof.
  intros Hc.
  induction fuel as [|fuel IH]; intros k rc d tr Hrc Hf; [lia|].
  cbn [readValue_loop].
  destruct (Z.eq_dec (issue_rc (attempt env k)) 0) as [Hi|Hi].
  - destruct (readValue_body_waited hc env (readValue_loop hc env fuel)
                k rc d tr Hi) as (d2 & _ & _ & ->).
    specialize (Hc k).
    destruct (completion env ReadGate (events (attempt env k))) as [s|];
      [|congruence].
    destruct (switch_case hc s); try (eexists; reflexivity).
    destruct (Z.eqb_spec rc 0); [eexists; reflexivity|].
    destruct (secure_ok (attempt env k)); [|eexists; reflexivity].
    apply IH; lia.
  - rewrite readValue_body_issue_failed by exact Hi. eexists; reflexivity.
Qed.

Lemma not_long_count_step (k n : nat) (s : Z) :
  completion env WriteGate (events (attempt env k)) = Some s ->
  not_long_count hc env k (S n) =
  ((match switch_case hc s with CaseNotLong => 1 | _ => 0 end)
   + not_long_count hc env (S k) n)%nat.
Proof. intros H. cbn [not_long_count]. rewrite H. reflexivity. Qed.

(** The write loop issues at most [retryCount + 1] requests, plus one for
    every pass that completed with the not-long status. *)
Lemma writeValue_loop_requests (fuel : nat) :
  forall k retryCount length d tr, 0 <= retryCount ->
    (n_requests (trace (writeValue_loop hc env fuel k retryCount length d tr))
     <= n_requests tr + Z.to_nat retryCount + 1 + not_long_count hc env k fuel)%nat.
Proof.
  induction fuel as [|fuel IH]; intros k rc len d tr Hrc; cbn [writeValue_loop].
  - count_requests.
  - destruct (Z.eq_dec (issue_rc (attempt env k)) 0) as [Hi|Hi].
    + destruct (writeValue_body_waited hc env (writeValue_loop hc env fuel)
                  k rc len d tr Hi Hrc) as (d2 & _ & _ & ->).
      destruct (completion env WriteGate (events (attempt env k))) as [s|] eqn:Hs;
        [|count_requests].
      rewrite (not_long_count_step k fuel s Hs).
      destruct (switch_case hc s);
        try (count_requests).
      * etransitivity; [apply IH; lia|].
        count_requests.
      * destruct (Z.eqb_spec rc 0);
          [count_requests|].
        destruct (secure_ok (attempt env k)).
        -- etransitivity; [apply IH; lia|].
           count_requests.
        -- count_requests.
    + rewrite writeValue_body_issue_failed by exact Hi.
      count_requests.
Qed.

(** It returns once the passes allowed cover [retryCount + 1] and the
    not-long completions among them. *)
Lemma writeValue_loop_returns (fuel : nat) :
  (forall i, completion env WriteGate (events (attempt env i)) <> None) ->
  forall k retryCount length d tr, 0 <= retryCount ->
    (Z.to_nat retryCount + 1 + not_long_count hc env k fuel <= fuel)%nat ->
    exists b, outcome (writeValue_loop hc env fuel k retryCount length d tr)
              = Returned b.
Proof.
  intros Hc.
  induction fuel as [|fuel IH]; intros k rc len d tr Hrc Hf; [lia|].
  cbn [writeValue_loop].
  destruct (Z.eq_dec (issue_rc (attempt env k)) 0) as [Hi|Hi].
  - destruct (writeValue_body_waited hc env (writeValue_loop hc env fuel)
                k rc len d tr Hi Hrc) as (d2 & _ & _ & ->).
    specialize (Hc k).
    destruct (completion env WriteGate (events (attempt env k))) as [s|] eqn:Hs;
      [|congruence].
    rewrite (not_long_count_step k fuel s Hs) in Hf.
    destruct (switch_case hc s); try (eexists; reflexivity).
    + apply IH; lia.
    + destruct (Z.eqb_spec rc 0); [eexists; reflexivity|].
      destruct (secure_ok (attempt env k)); [|eexists; reflexivity].
      apply IH; lia.
  - rewrite writeValue_body_issue_failed by exact Hi. eexists; reflexivity.
Qed.

(** More passes allowed do not change a call that has finished. *)
Lemma writeValue_body_stable loop1 loop2 k retryCount length d tr :
  (forall k' rc' len' d' tr',
      outcome (loop1 k' rc' len' d' tr') <> Running ->
      loop2 k' rc' len' d' tr' = loop1 k' rc' len' d' tr') ->
  outcome (writeValue_body hc env loop1 k retryCount length d tr) <> Running ->
  writeValue_body hc env loop2 k retryCount length d tr =
  writeValue_body hc env loop1 k retryCount length d tr.
Proof.
  intros H. unfold writeValue_body. split_body; intros Hr; auto.
Qed.

Lemma writeValue_loop_stable (fuel : nat) :
  forall k retryCount length d tr,
    outcome (writeValue_loop hc env fuel k retryCount length d tr) <> Running ->
    forall extra,
      writeValue_loop hc env (extra + fuel) k retryCount length d tr =
      writeValue_loop hc env fuel k retryCount length d tr.
Proof.
  induction fuel as [|fuel IH]; intros k rc len d tr Hr extra.
  - cbn in Hr. congruence.
  - rewrite Nat.add_succ_r. cbn [writeValue_loop] in *.
    apply writeValue_body_stable; [|exact Hr].
    intros. apply IH. assumption.
Qed.

(** The trace only grows, and every pass starts by taking the gate and
    issuing its request. *)
Lemma writeValue_loop_trace (fuel : nat) :
  forall k retryCount length d tr, 0 <= retryCount ->
    exists suffix,
      trace (writeValue_loop hc env fuel k retryCount length d tr) = tr ++ suffix.
Proof.
  induction fuel as [|fuel IH]; intros k rc len d tr Hrc; cbn [writeValue_loop].
  - exists []. cbn. rewrite app_nil_r. reflexivity.
  - destruct (Z.eq_dec (issue_rc (attempt env k)) 0) as [Hi|Hi].
    + destruct (writeValue_body_waited hc env (writeValue_loop hc env fuel)
                  k rc len d tr Hi Hrc) as (d2 & _ & _ & ->).
      destruct (completion env WriteGate (events (attempt env k))) as [s|];
        [|eexists; reflexivity].
      destruct (switch_case hc s); try (eexists; reflexivity).
      * destruct (IH (S k) rc (mtu env) d2
                    (tr ++ [ActTake WriteGate;
                            ActRequest (write_request env len d);
                            ActWait WriteGate]) Hrc) as (suf & ->).
        rewrite <- app_assoc. eexists; reflexivity.
      * destruct (Z.eqb_spec rc 0); [eexists; reflexivity|].
        destruct (secure_ok (attempt env k)).
        -- destruct (IH (S k) (rc - 1) len d2
                      ((tr ++ [ActTake WriteGate;
                               ActRequest (write_request env len d);
                               ActWait WriteGate]) ++ [ActSecure true])
                      ltac:(lia)) as (suf & ->).
           rewrite <- !app_assoc. eexists; reflexivity.
        -- cbn [trace]. rewrite <- app_assoc. eexists; reflexivity.
    + rewrite writeValue_body_issue_failed by exact Hi. eexists; reflexivity.
Qed.

End Bounds.

(** ** The claims *)

Lemma mtu_in_range (env : Env) :
  3 <= ble_att_mtu env < 65536 -> mtu env = ble_att_mtu env - 3.
Proof. intros H. unfold mtu. apply Z.mod_small. lia. Qed.

(** C9: a call made while the client reports disconnected returns the
    empty byte sequence (read) or false (write); its trace is empty, so
    no transport request was issued and no gate was taken. *)
Theorem disconnected_call_does_nothing (hc : HostCodes) (env : Env) :
  isConnected env = false ->
  forall fuel length response d,
    readValue hc env fuel d = mkResult (Returned []) [] (set_value [] d) /\
    writeValue hc env fuel length response d = mkResult (Returned false) [] d.
Proof.
  intros H fuel length response d.
  unfold readValue, writeValue. rewrite H. split; reflexivity.
Qed.

Lemma disconnected_call_does_nothing_witness :
  isConnected offline_peer = false /\
  readValue nimble_codes offline_peer 2 used_descriptor
  = mkResult (Returned []) [] idle_descriptor /\
  writeValue nimble_codes offline_peer 2 30 true used_descriptor
  = mkResult (Returned false) [] used_descriptor.
Proof.
  split; [reflexivity|].
  apply (disconnected_call_does_nothing nimble_codes offline_peer).
  reflexivity.
Defined.

(** C10: a read or write completion callback whose connection handle is
    not the client's connection id returns 0 and leaves the descriptor as
    it was: nothing is appended to the value and neither gate is given. *)
Theorem stale_callback_is_ignored (env : Env) (conn_handle : Z) :
  conn_handle <> getConnId env ->
  forall status attr d,
    onReadCB env conn_handle status attr d = (0, d) /\
    onWriteCB env conn_handle status d = (0, d).
Proof.
  intros H status attr d. unfold onReadCB, onWriteCB.
  destruct (Z.eqb_spec (getConnId env) conn_handle); [congruence|].
  split; reflexivity.
Qed.

Lemma stale_callback_is_ignored_witness :
  onReadCB (peer []) 8 0 (Some ["a"%byte]) used_descriptor = (0, used_descriptor) /\
  onWriteCB (peer []) 8 0 used_descriptor = (0, used_descriptor).
Proof.
  apply (stale_callback_is_ignored (peer []) 8). cbn. lia.
Defined.

(** C5: a connected write of at most (unit size - 3) bytes that does not
    ask for a response issues exactly one no-response write and nothing
    else (no take, no wait, no further request), leaves the descriptor
    untouched and returns true exactly when that issue call returned 0. *)
Theorem short_unacknowledged_write (hc : HostCodes) (env : Env) (length : Z) :
  isConnected env = true ->
  0 <= ble_att_mtu env < 65536 ->
  0 <= length <= ble_att_mtu env - 3 ->
  forall fuel d,
    writeValue hc env fuel length false d =
    mkResult (Returned (issue_rc (attempt env 0) =? 0))
             [ActRequest (WriteNoRsp (getConnId env) (m_handle d) length)] d.
Proof.
  intros Hc Hu Hl fuel d. unfold writeValue. rewrite Hc. cbn [negb].
  rewrite mtu_in_range by lia.
  destruct (Z.leb_spec length (ble_att_mtu env - 3)); [|lia].
  reflexivity.
Qed.

Lemma short_unacknowledged_write_witness :
  writeValue nimble_codes (peer [mkAttempt 0 [] false]) 0 20 false idle_descriptor
  = mkResult (Returned true) [ActRequest (WriteNoRsp 7 42 20)] idle_descriptor /\
  writeValue nimble_codes (peer [mkAttempt 6 [] false]) 0 20 false idle_descriptor
  = mkResult (Returned false) [ActRequest (WriteNoRsp 7 42 20)] idle_descriptor.
Proof.
  split.
  - apply (short_unacknowledged_write nimble_codes (peer [mkAttempt 0 [] false]) 20);
      cbn; first [reflexivity | lia].
  - apply (short_unacknowledged_write nimble_codes (peer [mkAttempt 6 [] false]) 20);
      cbn; first [reflexivity | lia].
Defined.

(** C7: when the issue call of a pass returns a non-zero code, the call
    gives the gate it took and returns at once: the empty byte sequence
    from a read, false from a write.  The pass adds take, request, give to
    the trace: no wait, no further pass.  A write on the no-response
    short cut has taken no gate and returns false after its one request. *)
Theorem issue_failure_releases_and_fails (hc : HostCodes) (env : Env) (k : nat) :
  issue_rc (attempt env k) <> 0 ->
  forall fuel retryCount length d tr,
    readValue_loop hc env (S fuel) k retryCount d tr =
    mkResult (Returned [])
             (tr ++ [ActTake ReadGate;
                     ActRequest (ReadLong (getConnId env) (m_handle d) 0);
                     ActGive ReadGate (Some 0)])
             (set_gate ReadGate (Semaphore.mk false 0) d) /\
    writeValue_loop hc env (S fuel) k retryCount length d tr =
    mkResult (Returned false)
             (tr ++ [ActTake WriteGate;
                     ActRequest (write_request env length d);
                     ActGive WriteGate None])
             (set_gate WriteGate
                (Semaphore.mk false (Semaphore.status (m_semaphoreDescWrite d))) d) /\
    (k = 0%nat -> isConnected env = true ->
     readValue hc env (S fuel) d =
     mkResult (Returned [])
              [ActTake ReadGate;
               ActRequest (ReadLong (getConnId env) (m_handle d) 0);
               ActGive ReadGate (Some 0)]
              (set_gate ReadGate (Semaphore.mk false 0) (set_value [] d)) /\
     forall response,
       writeValue hc env (S fuel) length response d =
       if (length <=? mtu env) && negb response
       then mkResult (Returned false)
                     [ActRequest (WriteNoRsp (getConnId env) (m_handle d) length)] d
       else mkResult (Returned false)
                     [ActTake WriteGate;
                      ActRequest (write_request env length d);
                      ActGive WriteGate None]
                     (set_gate WriteGate
                        (Semaphore.mk false
                           (Semaphore.status (m_semaphoreDescWrite d))) d)).
Proof.
  intros Hi fuel rc length d tr.
  assert (Hr : forall rc d tr,
             readValue_loop hc env (S fuel) k rc d tr =
             mkResult (Returned [])
               (tr ++ [ActTake ReadGate;
                       ActRequest (ReadLong (getConnId env) (m_handle d) 0);
                       ActGive ReadGate (Some 0)])
               (set_gate ReadGate (Semaphore.mk false 0) d)).
  { intros. cbn [readValue_loop]. apply readValue_body_issue_failed. exact Hi. }
  assert (Hw : forall rc d tr,
             writeValue_loop hc env (S fuel) k rc length d tr =
             mkResult (Returned false)
               (tr ++ [ActTake WriteGate;
                       ActRequest (write_request env length d);
                       ActGive WriteGate None])
               (set_gate WriteGate
                  (Semaphore.mk false (Semaphore.status (m_semaphoreDescWrite d))) d)).
  { intros. cbn [writeValue_loop]. apply writeValue_body_issue_failed. exact Hi. }
  split; [apply Hr|]. split; [apply Hw|].
  intros -> Hc. unfold readValue, writeValue. rewrite Hc. cbn [negb].
  split; [apply Hr|].
  intros response. destruct ((length <=? mtu env) && negb response).
  - apply Z.eqb_neq in Hi. rewrite Hi. reflexivity.
  - apply Hw.
Qed.

Lemma issue_failure_releases_and_fails_witness :
  readValue nimble_codes (peer [mkAttempt 6 [] true]) 2 used_descriptor =
  mkResult (Returned [])
           [ActTake ReadGate; ActRequest (ReadLong 7 42 0); ActGive ReadGate (Some 0)]
           idle_descriptor /\
  writeValue nimble_codes (peer [mkAttempt 6 [] true]) 2 30 true idle_descriptor =
  mkResult (Returned false)
           [ActTake WriteGate; ActRequest (WriteLong 7 42 0 30); ActGive WriteGate None]
           idle_descriptor.
Proof.
  assert (H : issue_rc (attempt (peer [mkAttempt 6 [] true]) 0) <> 0)
    by (cbn; lia).
  pose proof (issue_failure_releases_and_fails nimble_codes
                (peer [mkAttempt 6 [] true]) 0 H 1%nat 1 30) as W.
  split.
  - exact (proj1 (proj2 (proj2 (W used_descriptor [])) eq_refl eq_refl)).
  - exact (proj2 (proj2 (proj2 (W idle_descriptor [])) eq_refl eq_refl) true).
Defined.

(** C6: a pass that completes with an insufficient authentication,
    authorization or encryption status while [retryCount] is 0 or
    [secureConnection] fails ends the call: the read returns the empty
    byte sequence, the write returns false, and the only request the pass
    added is its own.  In particular a first attempt that meets the status
    with no upgrade available fails after exactly one request. *)
Theorem security_failure_without_retry (hc : HostCodes) (env : Env) (k : nat) (s : Z) :
  case_labels_distinct hc ->
  is_security_status hc s ->
  issue_rc (attempt env k) = 0 ->
  forall retryCount,
    0 <= retryCount ->
    retryCount = 0 \/ secure_ok (attempt env k) = false ->
    forall fuel length d tr,
      (completion env ReadGate (events (attempt env k)) = Some s ->
       outcome (readValue_loop hc env (S fuel) k retryCount d tr) = Returned [] /\
       requests (trace (readValue_loop hc env (S fuel) k retryCount d tr)) =
       requests tr ++ [ReadLong (getConnId env) (m_handle d) 0]) /\
      (completion env WriteGate (events (attempt env k)) = Some s ->
       outcome (writeValue_loop hc env (S fuel) k retryCount length d tr)
       = Returned false /\
       requests (trace (writeValue_loop hc env (S fuel) k retryCount length d tr)) =
       requests tr ++ [write_request env length d]) /\
      (k = 0%nat -> retryCount = 1 -> isConnected env = true ->
       (completion env ReadGate (events (attempt env k)) = Some s ->
        outcome (readValue hc env (S fuel) d) = Returned [] /\
        requests (trace (readValue hc env (S fuel) d)) =
        [ReadLong (getConnId env) (m_handle d) 0]) /\
       (completion env WriteGate (events (attempt env k)) = Some s ->
        forall response,
          (length <=? mtu env) && negb response = false ->
          outcome (writeValue hc env (S fuel) length response d) = Returned false /\
          requests (trace (writeValue hc env (S fuel) length response d)) =
          [write_request env length d])).
Proof.
  intros Hl Hs Hi rc Hrc Hno fuel length d tr.
  pose proof (switch_case_security hc Hl s Hs) as Hcase.
  assert (Hr : forall d tr,
             completion env ReadGate (events (attempt env k)) = Some s ->
             outcome (readValue_loop hc env (S fuel) k rc d tr) = Returned [] /\
             requests (trace (readValue_loop hc env (S fuel) k rc d tr)) =
             requests tr ++ [ReadLong (getConnId env) (m_handle d) 0]).
  { intros d' tr' Hc. cbn [readValue_loop].
    destruct (readValue_body_waited hc env (readValue_loop hc env fuel)
                k rc d' tr' Hi) as (d2 & _ & _ & ->).
    rewrite Hc, Hcase.
    destruct (Z.eqb_spec rc 0) as [|Hn].
    - cbn [outcome trace]. rewrite requests_app. auto.
    - destruct Hno as [|Hno]; [contradiction|]. rewrite Hno.
      cbn [outcome trace]. rewrite !requests_app. cbn. rewrite app_nil_r. auto. }
  assert (Hw : forall d tr,
             completion env WriteGate (events (attempt env k)) = Some s ->
             outcome (writeValue_loop hc env (S fuel) k rc length d tr)
             = Returned false /\
             requests (trace (writeValue_loop hc env (S fuel) k rc length d tr)) =
             requests tr ++ [write_request env length d]).
  { intros d' tr' Hc. cbn [writeValue_loop].
    destruct (writeValue_body_waited hc env (writeValue_loop hc env fuel)
                k rc length d' tr' Hi Hrc) as (d2 & _ & _ & ->).
    rewrite Hc, Hcase.
    destruct (Z.eqb_spec rc 0) as [|Hn].
    - cbn [outcome trace]. rewrite requests_app. auto.
    - destruct Hno as [|Hno]; [contradiction|]. rewrite Hno.
      cbn [outcome trace]. rewrite !requests_app. cbn. rewrite app_nil_r. auto. }
  split; [apply Hr|]. split; [apply Hw|].
  intros Hk -> Hconn. subst k.
  unfold readValue, writeValue. rewrite Hconn. cbn [negb].
  split.
  - intros Hc. apply (Hr (set_value [] d) [] Hc).
  - intros Hc response ->. apply (Hw d [] Hc).
Qed.

Lemma security_failure_without_retry_witness :
  let env := peer [mkAttempt 0 [EvReadCB 7 271 None; EvWriteCB 7 271] false] in
  (outcome (readValue nimble_codes env 2 used_descriptor) = Returned [] /\
   requests (trace (readValue nimble_codes env 2 used_descriptor))
   = [ReadLong 7 42 0]) /\
  (outcome (writeValue nimble_codes env 2 1 true idle_descriptor) = Returned false /\
   requests (trace (writeValue nimble_codes env 2 1 true idle_descriptor))
   = [WriteFlat 7 42 1]).
Proof.
  intros env.
  assert (Hs : is_security_status nimble_codes 271) by (right; right; reflexivity).
  assert (Hi : issue_rc (attempt env 0) = 0) by reflexivity.
  assert (Hno : 1 = 0 \/ secure_ok (attempt env 0) = false) by (right; reflexivity).
  pose proof (security_failure_without_retry nimble_codes env 0 271
                nimble_labels_distinct Hs Hi 1 ltac:(lia) Hno 1%nat 1) as W.
  split.
  - exact (proj1 (proj2 (proj2 (W used_descriptor [])) eq_refl eq_refl eq_refl)
             eq_refl).
  - exact (proj2 (proj2 (proj2 (W idle_descriptor [])) eq_refl eq_refl eq_refl)
             eq_refl true eq_refl).
Defined.

(** *** Release from the disconnect path *)

Lemma completion_app_none (env : Env) (g : GateId) (pre rest : list Event) :
  completion env g pre = None ->
  completion env g (pre ++ rest) = completion env g rest.
Proof.
  induction pre as [|e pre IH]; cbn; [reflexivity|].
  destruct (signals env g e); [discriminate | exact IH].
Qed.

(** Without the release the read would stay in wait. *)
Lemma unreleased_read_blocks (hc : HostCodes) (env : Env) (k : nat) :
  issue_rc (attempt env k) = 0 ->
  completion env ReadGate (events (attempt env k)) = None ->
  forall fuel retryCount d tr,
    outcome (readValue_loop hc env (S fuel) k retryCount d tr) = BlockedInWait.
Proof.
  intros Hi Hc fuel rc d tr. cbn [readValue_loop].
  destruct (readValue_body_waited hc env (readValue_loop hc env fuel)
              k rc d tr Hi) as (d2 & _ & _ & ->).
  rewrite Hc. reflexivity.
Qed.

(** C8: [releaseSemaphores] gives both gates with status 1, which is none
    of the statuses the switch accepts or retries; a read sitting in wait
    (nothing delivered so far has given its gate) is woken by it and
    returns the empty byte sequence, whatever had been accumulated. *)
Theorem release_wakes_blocked_read (hc : HostCodes) (env : Env) (k : nat)
        (pre post : list Event) :
  ~ In 1 (case_labels hc) ->
  issue_rc (attempt env k) = 0 ->
  events (attempt env k) = pre ++ EvRelease :: post ->
  completion env ReadGate pre = None ->
  (forall d, gate ReadGate (releaseSemaphores d) = Semaphore.mk false 1 /\
             gate WriteGate (releaseSemaphores d) = Semaphore.mk false 1) /\
  switch_case hc 1 = CaseDefault /\
  forall fuel retryCount d tr,
    (outcome (readValue_loop hc env (S fuel) k retryCount d tr) = Returned [] /\
     trace (readValue_loop hc env (S fuel) k retryCount d tr) =
     tr ++ [ActTake ReadGate;
            ActRequest (ReadLong (getConnId env) (m_handle d) 0);
            ActWait ReadGate]) /\
    (k = 0%nat -> isConnected env = true ->
     outcome (readValue hc env (S fuel) d) = Returned []).
Proof.
  intros H1 Hi He Hpre.
  pose proof (switch_case_unlisted hc 1 H1) as Hcase.
  split; [intros d; split; reflexivity|]. split; [exact Hcase|].
  assert (Hc : completion env ReadGate (events (attempt env k)) = Some 1).
  { rewrite He, completion_app_none by exact Hpre. reflexivity. }
  assert (Hr : forall fuel rc d tr,
             outcome (readValue_loop hc env (S fuel) k rc d tr) = Returned [] /\
             trace (readValue_loop hc env (S fuel) k rc d tr) =
             tr ++ [ActTake ReadGate;
                    ActRequest (ReadLong (getConnId env) (m_handle d) 0);
                    ActWait ReadGate]).
  { intros fuel rc d tr. cbn [readValue_loop].
    destruct (readValue_body_waited hc env (readValue_loop hc env fuel)
                k rc d tr Hi) as (d2 & _ & _ & ->).
    rewrite Hc, Hcase. auto. }
  intros fuel rc d tr. split; [apply Hr|].
  intros -> Hconn. unfold readValue. rewrite Hconn. cbn [negb]. apply Hr.
Qed.

Lemma release_wakes_blocked_read_witness :
  let env := peer [mkAttempt 0 [EvReadCB 7 0 (Some ["a"%byte]); EvRelease] false] in
  outcome (readValue nimble_codes env 1 idle_descriptor) = Returned [] /\
  outcome (readValue nimble_codes
             (peer [mkAttempt 0 [EvReadCB 7 0 (Some ["a"%byte])] false])
             1 idle_descriptor) = BlockedInWait.
Proof.
  intros env. split; [|reflexivity].
  assert (H1 : ~ In 1 (case_labels nimble_codes))
    by (cbn; intuition discriminate).
  pose proof (release_wakes_blocked_read nimble_codes env 0
                [EvReadCB 7 0 (Some ["a"%byte])] [] H1 eq_refl eq_refl eq_refl) as W.
  exact (proj2 (proj2 (proj2 W) 0%nat 1 idle_descriptor []) eq_refl eq_refl).
Defined.

(** *** Fragments of a long read *)

Section Fragments.
Variable env : Env.

Lemma completion_data_events (frags : list (list byte)) (rest : list Event) :
  completion env ReadGate (data_events env frags ++ rest)
  = completion env ReadGate rest.
Proof.
  unfold data_events.
  induction frags as [|om frags IH]; cbn; [reflexivity|].
  rewrite Z.eqb_refl. cbn. exact IH.
Qed.

Lemma fragments_data_events (frags : list (list byte)) (rest : list Event) :
  fragments env ReadGate (data_events env frags ++ rest) =
  concat frags ++ fragments env ReadGate rest.
Proof.
  unfold data_events.
  induction frags as [|om frags IH]; cbn; [reflexivity|].
  rewrite Z.eqb_refl. cbn. rewrite IH, app_assoc. reflexivity.
Qed.

End Fragments.

(** C3: a read whose transport delivers [N] data-carrying callbacks
    (status 0, non-null attribute) and then one terminal success signal
    (status 0 with a null attribute, or [BLE_HS_EDONE]) returns exactly the
    concatenation of the fragments in delivery order, after one request. *)
Theorem read_returns_fragments_in_order (hc : HostCodes) (env : Env)
        (frags : list (list byte)) (st : Z) (attr : option (list byte))
        (rest : list Event) :
  case_labels_distinct hc ->
  isConnected env = true ->
  issue_rc (attempt env 0) = 0 ->
  events (attempt env 0) =
    data_events env frags ++ EvReadCB (getConnId env) st attr :: rest ->
  (st = 0 /\ attr = None) \/ st = BLE_HS_EDONE hc ->
  forall fuel d,
    outcome (readValue hc env (S fuel) d) = Returned (concat frags) /\
    requests (trace (readValue hc env (S fuel) d)) =
    [ReadLong (getConnId env) (m_handle d) 0].
Proof.
  intros Hl Hconn Hi He Hst fuel d.
  destruct (labels_apart hc Hl) as (Hdone & _).
  assert (Hsig : (st =? 0) && is_some attr = false).
  { destruct Hst as [[-> ->] | ->]; [reflexivity|].
    apply Z.eqb_neq in Hdone. rewrite Hdone. reflexivity. }
  assert (Hc : completion env ReadGate (events (attempt env 0)) = Some st).
  { rewrite He, completion_data_events. cbn.
    rewrite Z.eqb_refl. cbn [negb]. rewrite Hsig. reflexivity. }
  assert (Hf : fragments env ReadGate (events (attempt env 0)) = concat frags).
  { rewrite He, fragments_data_events. cbn.
    rewrite Z.eqb_refl. cbn [negb andb]. rewrite Hsig.
    destruct attr as [om|]; [|apply app_nil_r].
    rewrite andb_true_r in Hsig. rewrite Hsig. apply app_nil_r. }
  assert (Hcase : switch_case hc st = CaseDone).
  { destruct Hst as [[-> _] | ->];
      [apply switch_case_zero | apply switch_case_edone]. }
  unfold readValue. rewrite Hconn. cbn [negb readValue_loop].
  destruct (readValue_body_waited hc env (readValue_loop hc env fuel)
              0 1 (set_value [] d) [] Hi) as (d2 & Hv & _ & ->).
  rewrite Hc, Hcase. cbn [outcome trace]. rewrite Hv, Hf. auto.
Qed.

Lemma read_returns_fragments_in_order_witness :
  let env := peer [mkAttempt 0 [EvReadCB 7 0 (Some ["a"; "b"]%byte);
                                EvReadCB 7 0 (Some ["c"]%byte);
                                EvReadCB 7 14 None] false] in
  outcome (readValue nimble_codes env 1 used_descriptor)
  = Returned ["a"; "b"; "c"]%byte /\
  requests (trace (readValue nimble_codes env 1 used_descriptor))
  = [ReadLong 7 42 0].
Proof.
  intros env.
  apply (read_returns_fragments_in_order nimble_codes env
           [["a"; "b"]%byte; ["c"]%byte] 14 None []).
  - exact nimble_labels_distinct.
  - reflexivity.
  - reflexivity.
  - reflexivity.
  - right. reflexivity.
Defined.

(** *** Truncation after a refused long write *)

Lemma writeValue_loop_first_request (hc : HostCodes) (env : Env)
      (fuel k : nat) (retryCount length : Z) (d : Descriptor) (tr : list Action) :
  0 <= retryCount ->
  exists suffix,
    trace (writeValue_loop hc env (S fuel) k retryCount length d tr) =
    tr ++ ActTake WriteGate :: ActRequest (write_request env length d) :: suffix.
Proof.
  intros Hrc. cbn [writeValue_loop].
  destruct (Z.eq_dec (issue_rc (attempt env k)) 0) as [Hi|Hi].
  - destruct (writeValue_body_waited hc env (writeValue_loop hc env fuel)
                k retryCount length d tr Hi Hrc) as (d2 & _ & _ & ->).
    destruct (completion env WriteGate (events (attempt env k))) as [s|];
      [|eexists; reflexivity].
    destruct (switch_case hc s); try (eexists; reflexivity).
    + destruct (writeValue_loop_trace hc env fuel (S k) retryCount (mtu env) d2
                  (tr ++ [ActTake WriteGate;
                          ActRequest (write_request env length d);
                          ActWait WriteGate]) Hrc) as (suf & ->).
      rewrite <- app_assoc. eexists; reflexivity.
    + destruct (Z.eqb_spec retryCount 0); [eexists; reflexivity|].
      destruct (secure_ok (attempt env k)).
      * destruct (writeValue_loop_trace hc env fuel (S k) (retryCount - 1) length d2
                    ((tr ++ [ActTake WriteGate;
                             ActRequest (write_request env length d);
                             ActWait WriteGate]) ++ [ActSecure true])
                    ltac:(lia)) as (suf & ->).
        rewrite <- !app_assoc. eexists; reflexivity.
      * cbn [trace]. rewrite <- app_assoc. eexists; reflexivity.
  - rewrite writeValue_body_issue_failed by exact Hi. eexists; reflexivity.
Qed.

(** C4: a connected write longer than the single-frame ceiling
    (unit size - 3) goes out as a long write (of the length as the
    [uint16_t] the mbuf takes); when that attempt completes
    with the not-long status the call issues a second request, an
    acknowledged single write ([ble_gattc_write_flat]) of exactly
    unit size - 3 bytes. *)
Theorem refused_long_write_is_truncated (hc : HostCodes) (env : Env) (length : Z) :
  case_labels_distinct hc ->
  isConnected env = true ->
  3 <= ble_att_mtu env < 65536 ->
  ble_att_mtu env - 3 < length ->
  issue_rc (attempt env 0) = 0 ->
  completion env WriteGate (events (attempt env 0)) = Some (HS_ATT_NOT_LONG hc) ->
  forall fuel response d,
  exists later,
    requests (trace (writeValue hc env (S (S fuel)) length response d)) =
    WriteLong (getConnId env) (m_handle d) 0 (length mod 65536)
    :: WriteFlat (getConnId env) (m_handle d) (ble_att_mtu env - 3)
    :: later.
Proof.
  intros Hl Hconn Hu Hlen Hi Hc fuel response d.
  pose proof (mtu_in_range env Hu) as Hm.
  unfold writeValue. rewrite Hconn. cbn [negb].
  destruct (Z.leb_spec length (mtu env)) as [Hle|_]; [lia|]. cbn [andb].
  rewrite writeValue_loop_S.
  destruct (writeValue_body_waited hc env (writeValue_loop hc env (S fuel))
              0 1 length d [] Hi ltac:(lia)) as (d2 & _ & Hh & ->).
  rewrite Hc, (switch_case_not_long hc Hl).
  destruct (writeValue_loop_first_request hc env fuel 1 1 (mtu env) d2
              ([] ++ [ActTake WriteGate;
                      ActRequest (write_request env length d);
                      ActWait WriteGate]) ltac:(lia)) as (suf & ->).
  exists (requests suf).
  rewrite requests_app. unfold write_request at 1 2. rewrite Hh.
  destruct (Z.gtb_spec length (mtu env)); [|lia].
  destruct (Z.gtb_spec (mtu env) (mtu env)); [lia|].
  rewrite Hm. reflexivity.
Qed.

Lemma refused_long_write_is_truncated_witness :
  let env := peer [mkAttempt 0 [EvWriteCB 7 267] false;
                   mkAttempt 0 [EvWriteCB 7 0] false] in
  writeValue nimble_codes env 2 30 true idle_descriptor =
  mkResult (Returned true)
           [ActTake WriteGate; ActRequest (WriteLong 7 42 0 30); ActWait WriteGate;
            ActTake WriteGate; ActRequest (WriteFlat 7 42 20); ActWait WriteGate]
           (mkDescriptor 42 [] (Semaphore.mk false 0) (Semaphore.mk false 0)) /\
  exists later,
    requests (trace (writeValue nimble_codes env 2 30 true idle_descriptor)) =
    WriteLong 7 42 0 30 :: WriteFlat 7 42 (23 - 3) :: later.
Proof.
  intros env. split; [reflexivity|].
  apply (refused_long_write_is_truncated nimble_codes env 30).
  - exact nimble_labels_distinct.
  - reflexivity.
  - cbn. lia.
  - cbn. lia.
  - reflexivity.
  - reflexivity.
Defined.

(** *** The retry after a security upgrade *)

(** What a read returns when its first attempt is refused for security,
    the upgrade succeeds and the second attempt completes: the loop goes
    back to [take], not to the clearing of [m_value], so the value holds
    the fragments of both attempts. *)
Lemma security_retry_accumulates (hc : HostCodes) (env : Env) (s0 s1 : Z) :
  case_labels_distinct hc ->
  isConnected env = true ->
  issue_rc (attempt env 0) = 0 ->
  completion env ReadGate (events (attempt env 0)) = Some s0 ->
  is_security_status hc s0 ->
  secure_ok (attempt env 0) = true ->
  issue_rc (attempt env 1) = 0 ->
  completion env ReadGate (events (attempt env 1)) = Some s1 ->
  forall fuel d,
    trace (readValue hc env (S (S fuel)) d) =
    [ActTake ReadGate; ActRequest (ReadLong (getConnId env) (m_handle d) 0);
     ActWait ReadGate; ActSecure true;
     ActTake ReadGate; ActRequest (ReadLong (getConnId env) (m_handle d) 0);
     ActWait ReadGate] /\
    outcome (readValue hc env (S (S fuel)) d) =
    Returned (match switch_case hc s1 with
              | CaseDone | CaseNotLong =>
                  fragments env ReadGate (events (attempt env 0))
                  ++ fragments env ReadGate (events (attempt env 1))
              | _ => []
              end).
Proof.
  intros Hl Hconn Hi0 Hc0 Hs0 Hsec Hi1 Hc1 fuel d.
  unfold readValue. rewrite Hconn. cbn [negb]. rewrite readValue_loop_S.
  destruct (readValue_body_waited hc env (readValue_loop hc env (S fuel))
              0 1 (set_value [] d) [] Hi0) as (d2 & Hv2 & Hh2 & ->).
  rewrite Hc0, (switch_case_security hc Hl s0 Hs0), Hsec. cbn [Z.eqb].
  rewrite readValue_loop_S.
  destruct (readValue_body_waited hc env (readValue_loop hc env fuel)
              1 (1 - 1) d2
              (([] ++ [ActTake ReadGate;
                       ActRequest (ReadLong (getConnId env)
                                     (m_handle (set_value [] d)) 0);
                       ActWait ReadGate]) ++ [ActSecure true]) Hi1)
    as (d3 & Hv3 & Hh3 & ->).
  rewrite Hc1, Hh2. cbn [Z.sub Z.add Z.opp Z.pos_sub Z.eqb].
  cbn [set_value m_handle] in *. cbn [m_value] in Hv2.
  rewrite Hv3, Hv2. cbn [app].
  destruct (switch_case hc s1); cbn [outcome trace]; auto.
Qed.

(** C2: a retried read should start from an empty value, so that what
    [readValue] returns comes from the final attempt only.  The code does
    not do that.  The first attempt delivers "A" and is then refused for
    insufficient authentication, the upgrade succeeds, the second attempt
    reads again from offset 0, delivers "B" and ends.  When the retried
    request is about to be issued the value still holds "A", and the read
    returns "AB" although the final attempt delivered "B" only. *)
Lemma retried_read_keeps_earlier_fragments :
  completion late_refusal_peer ReadGate (events (attempt late_refusal_peer 0))
  = Some (HS_ATT_INSUFFICIENT_AUTHEN nimble_codes) /\
  secure_ok (attempt late_refusal_peer 0) = true /\
  readValue nimble_codes late_refusal_peer 1 idle_descriptor =
  mkResult Running
           [ActTake ReadGate; ActRequest (ReadLong 7 42 0); ActWait ReadGate;
            ActSecure true]
           (mkDescriptor 42 ["A"%byte] (Semaphore.mk false 261) (Semaphore.mk false 0)) /\
  fragments late_refusal_peer ReadGate (events (attempt late_refusal_peer 1))
  = ["B"%byte] /\
  outcome (readValue nimble_codes late_refusal_peer 2 idle_descriptor)
  = Returned ["A"; "B"]%byte /\
  outcome (readValue nimble_codes late_refusal_peer 2 idle_descriptor)
  <> Returned (fragments late_refusal_peer ReadGate
                 (events (attempt late_refusal_peer 1))).
Proof.
  repeat split; try reflexivity. cbn. discriminate.
Qed.

(** *** How many requests a call issues *)

Lemma script_answers (env : Env) (g : GateId) (l : list Attempt) :
  Forall (fun a => completion env g (events a) <> None) (acked :: l) ->
  forall i, completion env g (events (script l i)) <> None.
Proof.
  intros H i. unfold script. rewrite Forall_forall in H.
  destruct (nth_in_or_default i l acked) as [Hin | ->]; apply H; cbn; auto.
Qed.

(** A peer that keeps answering not-long keeps the write in its loop: the
    truncation adds one to [retryCount] before the loop test takes one
    away, so every pass is followed by another. *)
Lemma write_loops_while_not_long (fuel : nat) :
  forall k length d tr,
    outcome (writeValue_loop nimble_codes always_not_long_peer fuel k 1 length d tr)
    = Running /\
    n_requests (trace (writeValue_loop nimble_codes always_not_long_peer
                         fuel k 1 length d tr))
    = (n_requests tr + fuel)%nat.
Proof.
  induction fuel as [|fuel IH]; intros k length d tr.
  - cbn [writeValue_loop outcome trace]. split; [reflexivity | lia].
  - rewrite writeValue_loop_S.
    destruct (writeValue_body_waited nimble_codes always_not_long_peer
                (writeValue_loop nimble_codes always_not_long_peer fuel)
                k 1 length d tr eq_refl ltac:(lia)) as (d2 & _ & _ & ->).
    assert (Hc : completion always_not_long_peer WriteGate
                   (events (attempt always_not_long_peer k)) = Some 267)
      by reflexivity.
    assert (Hs : switch_case nimble_codes 267 = CaseNotLong) by reflexivity.
    rewrite Hc, Hs.
    destruct (IH (S k) (mtu always_not_long_peer) d2
                (tr ++ [ActTake WriteGate;
                        ActRequest (write_request always_not_long_peer length d);
                        ActWait WriteGate])) as (Ho & Hn).
    split; [exact Ho|]. rewrite Hn.
    unfold n_requests, requests. rewrite flat_map_app, length_app.
    cbn [flat_map app List.length]. lia.
Qed.

(** C1, as the code has it: a read issues at most two requests and
    returns; a write during which at most one attempt completes with the
    not-long status issues at most three requests (two, and one more for
    the truncated retry, which is granted on top of the one security
    retry) and returns.  The transport is taken to complete every request
    it accepted. *)
Theorem requests_per_call_are_bounded (hc : HostCodes) (env : Env) :
  forall fuel length response d,
    ((forall i, completion env ReadGate (events (attempt env i)) <> None) ->
     (2 <= fuel)%nat ->
     (exists v, outcome (readValue hc env fuel d) = Returned v) /\
     (n_requests (trace (readValue hc env fuel d)) <= 2)%nat) /\
    ((forall i, completion env WriteGate (events (attempt env i)) <> None) ->
     (not_long_count hc env 0 3 <= 1)%nat ->
     (3 <= fuel)%nat ->
     (exists b, outcome (writeValue hc env fuel length response d) = Returned b) /\
     (n_requests (trace (writeValue hc env fuel length response d))
      <= 2 + not_long_count hc env 0 3 <= 3)%nat).
Proof.
  intros fuel length response d. split.
  - intros Hc Hf. unfold readValue.
    destruct (isConnected env); cbn [negb].
    + split.
      * apply readValue_loop_returns; [exact Hc | lia | lia].
      * pose proof (readValue_loop_requests hc env fuel 0 1 (set_value [] d) []
                      ltac:(lia)) as H.
        change (n_requests []) with 0%nat in H. lia.
    + split; [eexists; reflexivity | cbn; lia].
  - intros Hc Hn Hf. unfold writeValue.
    destruct (isConnected env); cbn [negb];
      [|split; [eexists; reflexivity | count_requests]].
    destruct ((length <=? mtu env) && negb response);
      [split; [eexists; reflexivity | count_requests]|].
    destruct (writeValue_loop_returns hc env 3 Hc 0 1 length d []
                ltac:(lia) ltac:(lia)) as (b & Hb).
    replace fuel with ((fuel - 3) + 3)%nat by lia.
    rewrite writeValue_loop_stable by (rewrite Hb; discriminate).
    split; [exists b; exact Hb|].
    pose proof (writeValue_loop_requests hc env 3 0 1 length d [] ltac:(lia)) as H.
    change (n_requests []) with 0%nat in H. lia.
Qed.

Lemma requests_per_call_are_bounded_witness :
  ((exists v, outcome (readValue nimble_codes late_refusal_peer 2 idle_descriptor)
              = Returned v) /\
   (n_requests (trace (readValue nimble_codes late_refusal_peer 2 idle_descriptor))
    <= 2)%nat) /\
  ((exists b, outcome (writeValue nimble_codes truncate_then_secure_peer 3 30 true
                         idle_descriptor) = Returned b) /\
   (n_requests (trace (writeValue nimble_codes truncate_then_secure_peer 3 30 true
                         idle_descriptor))
    <= 2 + not_long_count nimble_codes truncate_then_secure_peer 0 3 <= 3)%nat).
Proof.
  split.
  - apply (proj1 (requests_per_call_are_bounded nimble_codes late_refusal_peer
                    2 30 true idle_descriptor)).
    + apply script_answers. repeat constructor; cbn; discriminate.
    + lia.
  - apply (proj2 (requests_per_call_are_bounded nimble_codes
                    truncate_then_secure_peer 3 30 true idle_descriptor)).
    + apply script_answers. repeat constructor; cbn; discriminate.
    + cbn. lia.
    + lia.
Defined.

(** C1 as stated fails for writes: with MTU 23 a 30-byte write is refused
    as not long, the 20-byte retry is refused for insufficient
    encryption, and the write after the upgrade is accepted: three
    requests in one call. *)
Lemma write_issues_three_requests :
  writeValue nimble_codes truncate_then_secure_peer 3 30 true idle_descriptor =
  mkResult (Returned true)
           [ActTake WriteGate; ActRequest (WriteLong 7 42 0 30); ActWait WriteGate;
            ActTake WriteGate; ActRequest (WriteFlat 7 42 20); ActWait WriteGate;
            ActSecure true;
            ActTake WriteGate; ActRequest (WriteFlat 7 42 20); ActWait WriteGate]
           idle_descriptor /\
  ~ (n_requests (trace (writeValue nimble_codes truncate_then_secure_peer 3 30 true
                          idle_descriptor)) <= 2)%nat.
Proof.
  split; [reflexivity|]. cbn. lia.
Qed.

(** * Further properties of the code *)

(** ** The status table of a first attempt *)

Lemma n_secure_app (t1 t2 : list Action) :
  n_secure (t1 ++ t2) = (n_secure t1 + n_secure t2)%nat.
Proof. unfold n_secure. rewrite filter_app, length_app. reflexivity. Qed.

(** A read whose attempt completes with the not-long status is not a
    failure: the call returns what the data callbacks had accumulated,
    after its one request and without asking for a security upgrade. *)
Theorem read_not_long_returns_accumulated (hc : HostCodes) (env : Env) :
  case_labels_distinct hc ->
  isConnected env = true ->
  issue_rc (attempt env 0) = 0 ->
  completion env ReadGate (events (attempt env 0)) = Some (HS_ATT_NOT_LONG hc) ->
  forall fuel d,
    outcome (readValue hc env (S fuel) d)
    = Returned (fragments env ReadGate (events (attempt env 0))) /\
    trace (readValue hc env (S fuel) d) =
    [ActTake ReadGate; ActRequest (ReadLong (getConnId env) (m_handle d) 0);
     ActWait ReadGate].
Proof.
  intros Hl Hconn Hi Hc fuel d.
  unfold readValue. rewrite Hconn. cbn [negb]. rewrite readValue_loop_S.
  destruct (readValue_body_waited hc env (readValue_loop hc env fuel)
              0 1 (set_value [] d) [] Hi) as (d2 & Hv & _ & ->).
  rewrite Hc, (switch_case_not_long hc Hl). cbn [outcome trace].
  rewrite Hv. auto.
Qed.

Lemma read_not_long_returns_accumulated_witness :
  let env := peer [mkAttempt 0 [EvReadCB 7 0 (Some ["a"; "b"]%byte);
                                EvReadCB 7 267 None] true] in
  outcome (readValue nimble_codes env 1 used_descriptor) = Returned ["a"; "b"]%byte /\
  trace (readValue nimble_codes env 1 used_descriptor) =
  [ActTake ReadGate; ActRequest (ReadLong 7 42 0); ActWait ReadGate].
Proof.
  intros env.
  apply (read_not_long_returns_accumulated nimble_codes env
           nimble_labels_distinct eq_refl eq_refl eq_refl 0%nat used_descriptor).
Defined.

(** A read whose attempt completes with a status that is none of the
    switch labels returns the empty byte sequence after that one attempt,
    without asking for a security upgrade, although the fragments
    delivered before the status stay in [m_value]. *)
Theorem read_unlisted_status_returns_empty (hc : HostCodes) (env : Env) (s : Z) :
  ~ In s (case_labels hc) ->
  isConnected env = true ->
  issue_rc (attempt env 0) = 0 ->
  completion env ReadGate (events (attempt env 0)) = Some s ->
  forall fuel d,
    outcome (readValue hc env (S fuel) d) = Returned [] /\
    m_value (final (readValue hc env (S fuel) d))
    = fragments env ReadGate (events (attempt env 0)) /\
    trace (readValue hc env (S fuel) d) =
    [ActTake ReadGate; ActRequest (ReadLong (getConnId env) (m_handle d) 0);
     ActWait ReadGate].
Proof.
  intros Hs Hconn Hi Hc fuel d.
  unfold readValue. rewrite Hconn. cbn [negb]. rewrite readValue_loop_S.
  destruct (readValue_body_waited hc env (readValue_loop hc env fuel)
              0 1 (set_value [] d) [] Hi) as (d2 & Hv & _ & ->).
  rewrite Hc, (switch_case_unlisted hc s Hs). cbn [outcome trace final].
  rewrite Hv. auto.
Qed.

Lemma read_unlisted_status_returns_empty_witness :
  let env := peer [mkAttempt 0 [EvReadCB 7 0 (Some ["a"; "b"]%byte);
                                EvReadCB 7 258 None] true] in
  outcome (readValue nimble_codes env 1 used_descriptor) = Returned [] /\
  m_value (final (readValue nimble_codes env 1 used_descriptor)) = ["a"; "b"]%byte /\
  trace (readValue nimble_codes env 1 used_descriptor) =
  [ActTake ReadGate; ActRequest (ReadLong 7 42 0); ActWait ReadGate].
Proof.
  intros env.
  assert (H : ~ In 258 (case_labels nimble_codes)) by (cbn; intuition discriminate).
  apply (read_unlisted_status_returns_empty nimble_codes env 258 H
           eq_refl eq_refl eq_refl 0%nat used_descriptor).
Defined.

(** An acknowledged or long write whose first attempt completes with 0 or
    [BLE_HS_EDONE] returns true after that one request: a long write above
    [mtu], a single write otherwise. *)
Theorem write_success_on_first_attempt (hc : HostCodes) (env : Env)
        (length : Z) (response : bool) (s : Z) :
  isConnected env = true ->
  (length <=? mtu env) && negb response = false ->
  issue_rc (attempt env 0) = 0 ->
  completion env WriteGate (events (attempt env 0)) = Some s ->
  s = 0 \/ s = BLE_HS_EDONE hc ->
  forall fuel d,
    outcome (writeValue hc env (S fuel) length response d) = Returned true /\
    trace (writeValue hc env (S fuel) length response d) =
    [ActTake WriteGate; ActRequest (write_request env length d);
     ActWait WriteGate].
Proof.
  intros Hconn Hslow Hi Hc Hs fuel d.
  assert (Hcase : switch_case hc s = CaseDone)
    by (destruct Hs as [-> | ->]; [apply switch_case_zero | apply switch_case_edone]).
  unfold writeValue. rewrite Hconn, Hslow. cbn [negb]. rewrite writeValue_loop_S.
  destruct (writeValue_body_waited hc env (writeValue_loop hc env fuel)
              0 1 length d [] Hi ltac:(lia)) as (d2 & _ & _ & ->).
  rewrite Hc, Hcase. auto.
Qed.

Lemma write_success_on_first_attempt_witness :
  let env := peer [mkAttempt 0 [EvWriteCB 7 14] false] in
  outcome (writeValue nimble_codes env 1 30 false idle_descriptor) = Returned true /\
  trace (writeValue nimble_codes env 1 30 false idle_descriptor) =
  [ActTake WriteGate; ActRequest (WriteLong 7 42 0 30); ActWait WriteGate].
Proof.
  intros env.
  apply (write_success_on_first_attempt nimble_codes env 30 false 14
           eq_refl eq_refl eq_refl eq_refl (or_intror eq_refl) 0%nat idle_descriptor).
Defined.

(** A write refused for insufficient authentication, authorization or
    encryption is repeated once after a successful [secureConnection]:
    the same request (same kind, handle and length) goes out a second
    time, and the call returns true when that attempt completes with 0 or
    [BLE_HS_EDONE]. *)
Theorem write_security_retry_repeats_request (hc : HostCodes) (env : Env)
        (length : Z) (response : bool) (s0 s1 : Z) :
  case_labels_distinct hc ->
  isConnected env = true ->
  (length <=? mtu env) && negb response = false ->
  issue_rc (attempt env 0) = 0 ->
  completion env WriteGate (events (attempt env 0)) = Some s0 ->
  is_security_status hc s0 ->
  secure_ok (attempt env 0) = true ->
  issue_rc (attempt env 1) = 0 ->
  completion env WriteGate (events (attempt env 1)) = Some s1 ->
  s1 = 0 \/ s1 = BLE_HS_EDONE hc ->
  forall fuel d,
    outcome (writeValue hc env (S (S fuel)) length response d) = Returned true /\
    trace (writeValue hc env (S (S fuel)) length response d) =
    [ActTake WriteGate; ActRequest (write_request env length d); ActWait WriteGate;
     ActSecure true;
     ActTake WriteGate; ActRequest (write_request env length d); ActWait WriteGate].
Proof.
  intros Hl Hconn Hslow Hi0 Hc0 Hs0 Hsec Hi1 Hc1 Hs1 fuel d.
  assert (Hcase : switch_case hc s1 = CaseDone)
    by (destruct Hs1 as [-> | ->]; [apply switch_case_zero | apply switch_case_edone]).
  unfold writeValue. rewrite Hconn, Hslow. cbn [negb]. rewrite writeValue_loop_S.
  destruct (writeValue_body_waited hc env (writeValue_loop hc env (S fuel))
              0 1 length d [] Hi0 ltac:(lia)) as (d2 & _ & Hh2 & ->).
  rewrite Hc0, (switch_case_security hc Hl s0 Hs0), Hsec. cbn [Z.eqb].
  rewrite writeValue_loop_S.
  destruct (writeValue_body_waited hc env (writeValue_loop hc env fuel)
              1 (1 - 1) length d2
              (([] ++ [ActTake WriteGate;
                       ActRequest (write_request env length d);
                       ActWait WriteGate]) ++ [ActSecure true]) Hi1 ltac:(lia))
    as (d3 & _ & _ & ->).
  rewrite Hc1, Hcase. cbn [outcome trace].
  unfold write_request. rewrite Hh2. auto.
Qed.

Lemma write_security_retry_repeats_request_witness :
  let env := peer [mkAttempt 0 [EvWriteCB 7 264] true;
                   mkAttempt 0 [EvWriteCB 7 0] false] in
  outcome (writeValue nimble_codes env 2 5 true idle_descriptor) = Returned true /\
  trace (writeValue nimble_codes env 2 5 true idle_descriptor) =
  [ActTake WriteGate; ActRequest (WriteFlat 7 42 5); ActWait WriteGate;
   ActSecure true;
   ActTake WriteGate; ActRequest (WriteFlat 7 42 5); ActWait WriteGate].
Proof.
  intros env.
  apply (write_security_retry_repeats_request nimble_codes env 5 true 264 0
           nimble_labels_distinct eq_refl eq_refl eq_refl eq_refl
           (or_intror (or_introl eq_refl)) eq_refl eq_refl eq_refl
           (or_introl eq_refl) 0%nat idle_descriptor).
Defined.

(** ** Invariants of the two loops *)

Ltac count_secure :=
  unfold n_secure in *; cbn [trace readValue_loop writeValue_loop];
  rewrite ?filter_app, ?length_app; cbn [filter app List.length]; lia.

Section LoopInvariants.
Variable hc : HostCodes.
Variable env : Env.

Lemma readValue_loop_secure (fuel : nat) :
  forall k retryCount d tr, 0 <= retryCount ->
    (n_secure (trace (readValue_loop hc env fuel k retryCount d tr))
     <= n_secure tr + Z.to_nat retryCount)%nat.
Proof.
  induction fuel as [|fuel IH]; intros k rc d tr Hrc; [count_secure|].
  rewrite readValue_loop_S.
  destruct (Z.eq_dec (issue_rc (attempt env k)) 0) as [Hi|Hi].
  - destruct (readValue_body_waited hc env (readValue_loop hc env fuel)
                k rc d tr Hi) as (d2 & _ & _ & ->).
    destruct (completion env ReadGate (events (attempt env k))) as [s|];
      [destruct (switch_case hc s)|]; try count_secure.
    destruct (Z.eqb_spec rc 0); [count_secure|].
    destruct (secure_ok (attempt env k)); [|count_secure].
    etransitivity; [apply IH; lia|]. count_secure.
  - rewrite readValue_body_issue_failed by exact Hi. count_secure.
Qed.

Lemma writeValue_loop_secure (fuel : nat) :
  forall k retryCount length d tr, 0 <= retryCount ->
    (n_secure (trace (writeValue_loop hc env fuel k retryCount length d tr))
     <= n_secure tr + Z.to_nat retryCount)%nat.
Proof.
  induction fuel as [|fuel IH]; intros k rc len d tr Hrc; [count_secure|].
  rewrite writeValue_loop_S.
  destruct (Z.eq_dec (issue_rc (attempt env k)) 0) as [Hi|Hi].
  - destruct (writeValue_body_waited hc env (writeValue_loop hc env fuel)
                k rc len d tr Hi Hrc) as (d2 & _ & _ & ->).
    destruct (completion env WriteGate (events (attempt env k))) as [s|];
      [destruct (switch_case hc s)|]; try count_secure.
    + etransitivity; [apply IH; lia|]. count_secure.
    + destruct (Z.eqb_spec rc 0); [count_secure|].
      destruct (secure_ok (attempt env k)); [|count_secure].
      etransitivity; [apply IH; lia|]. count_secure.
  - rewrite writeValue_body_issue_failed by exact Hi. count_secure.
Qed.

(** Every request of the read loop is the same long read. *)
Lemma readValue_loop_requests_uniform (fuel : nat) (h : Z) :
  forall k retryCount d tr,
    m_handle d = h ->
    Forall (eq (ReadLong (getConnId env) h 0)) (requests tr) ->
    Forall (eq (ReadLong (getConnId env) h 0))
           (requests (trace (readValue_loop hc env fuel k retryCount d tr))).
Proof.
  induction fuel as [|fuel IH]; intros k rc d tr Hh Htr; [exact Htr|].
  rewrite readValue_loop_S.
  assert (Hpass : forall l,
             Forall (eq (ReadLong (getConnId env) h 0)) (requests l) ->
             Forall (eq (ReadLong (getConnId env) h 0))
                    (requests (tr ++ ActTake ReadGate
                                  :: ActRequest (ReadLong (getConnId env) (m_handle d) 0)
                                  :: l))).
  { intros l Hl. rewrite requests_app. apply Forall_app. split; [exact Htr|].
    cbn. constructor; [rewrite Hh; reflexivity | exact Hl]. }
  destruct (Z.eq_dec (issue_rc (attempt env k)) 0) as [Hi|Hi].
  - destruct (readValue_body_waited hc env (readValue_loop hc env fuel)
                k rc d tr Hi) as (d2 & _ & Hh2 & ->).
    destruct (completion env ReadGate (events (attempt env k))) as [s|];
      [destruct (switch_case hc s)|];
      try (cbn [trace]; apply Hpass; constructor).
    destruct (Z.eqb_spec rc 0); [cbn [trace]; apply Hpass; constructor|].
    destruct (secure_ok (attempt env k)).
    + apply IH; [congruence|]. rewrite <- app_assoc. apply Hpass. constructor.
    + cbn [trace]. rewrite <- app_assoc. apply Hpass. constructor.
  - rewrite readValue_body_issue_failed by exact Hi.
    cbn [trace]. apply Hpass. constructor.
Qed.

Lemma write_request_is_ok (h length0 length : Z) (d : Descriptor) :
  m_handle d = h ->
  length = length0 \/ length = mtu env ->
  write_request_ok env h length0 (write_request env length d).
Proof.
  intros Hh Hlen. unfold write_request.
  destruct (Z.gtb_spec length (mtu env)); cbn; rewrite Hh.
  - destruct Hlen as [-> | ->]; [auto | lia].
  - intuition lia.
Qed.

Lemma writeValue_loop_requests_ok (fuel : nat) (h length0 : Z) :
  forall k retryCount length d tr,
    0 <= retryCount ->
    m_handle d = h ->
    length = length0 \/ length = mtu env ->
    Forall (write_request_ok env h length0) (requests tr) ->
    Forall (write_request_ok env h length0)
           (requests (trace (writeValue_loop hc env fuel k retryCount length d tr))).
Proof.
  induction fuel as [|fuel IH]; intros k rc len d tr Hrc Hh Hlen Htr; [exact Htr|].
  rewrite writeValue_loop_S.
  assert (Hpass : forall l,
             Forall (write_request_ok env h length0) (requests l) ->
             Forall (write_request_ok env h length0)
                    (requests (tr ++ ActTake WriteGate
                                  :: ActRequest (write_request env len d) :: l))).
  { intros l Hl. rewrite requests_app. apply Forall_app. split; [exact Htr|].
    cbn. constructor; [apply write_request_is_ok; assumption | exact Hl]. }
  destruct (Z.eq_dec (issue_rc (attempt env k)) 0) as [Hi|Hi].
  - destruct (writeValue_body_waited hc env (writeValue_loop hc env fuel)
                k rc len d tr Hi Hrc) as (d2 & _ & Hh2 & ->).
    destruct (completion env WriteGate (events (attempt env k))) as [s|];
      [destruct (switch_case hc s)|];
      try (cbn [trace]; apply Hpass; constructor).
    + apply IH; [lia | congruence | right; reflexivity |].
      apply Hpass. constructor.
    + destruct (Z.eqb_spec rc 0); [cbn [trace]; apply Hpass; constructor|].
      destruct (secure_ok (attempt env k)).
      * apply IH; [lia | congruence | exact Hlen |].
        rewrite <- app_assoc. apply Hpass. constructor.
      * cbn [trace]. rewrite <- app_assoc. apply Hpass. constructor.
  - rewrite writeValue_body_issue_failed by exact Hi.
    cbn [trace]. apply Hpass. constructor.
Qed.

End LoopInvariants.

(** Within one public call [secureConnection] is asked at most once,
    whatever the transport answers and however long the call runs. *)
Theorem security_upgrade_asked_at_most_once (hc : HostCodes) (env : Env) :
  forall fuel length response d,
    (n_secure (trace (readValue hc env fuel d)) <= 1)%nat /\
    (n_secure (trace (writeValue hc env fuel length response d)) <= 1)%nat.
Proof.
  intros fuel length response d. unfold readValue, writeValue. split.
  - destruct (isConnected env); cbn [negb]; [|cbn; lia].
    pose proof (readValue_loop_secure hc env fuel 0 1 (set_value [] d) []
                  ltac:(lia)) as H.
    change (n_secure []) with 0%nat in H. lia.
  - destruct (isConnected env); cbn [negb]; [|cbn; lia].
    destruct ((length <=? mtu env) && negb response); [cbn; lia|].
    pose proof (writeValue_loop_secure hc env fuel 0 1 length d [] ltac:(lia)) as H.
    change (n_secure []) with 0%nat in H. lia.
Qed.

(** Every request a read issues, first attempt or retry, is the same
    long read: the client's connection, the descriptor's handle,
    offset 0. *)
Theorem read_requests_are_uniform (hc : HostCodes) (env : Env) :
  forall fuel d,
    Forall (eq (ReadLong (getConnId env) (m_handle d) 0))
           (requests (trace (readValue hc env fuel d))).
Proof.
  intros fuel d. unfold readValue.
  destruct (isConnected env); cbn [negb]; [|constructor].
  apply readValue_loop_requests_uniform; [reflexivity | constructor].
Qed.

Lemma writeValue_requests_ok (hc : HostCodes) (env : Env) :
  forall fuel length response d,
    Forall (write_request_ok env (m_handle d) length)
           (requests (trace (writeValue hc env fuel length response d))).
Proof.
  intros fuel length response d. unfold writeValue.
  destruct (isConnected env); cbn [negb]; [|constructor].
  destruct ((length <=? mtu env) && negb response) eqn:Hfast.
  - cbn. constructor; [|constructor]. cbn.
    apply andb_true_iff in Hfast. destruct Hfast as (Hle & _).
    apply Z.leb_le in Hle. auto.
  - apply writeValue_loop_requests_ok;
      [lia | reflexivity | left; reflexivity | constructor].
Qed.

(** Every request a write issues goes to the descriptor's handle on the
    client's connection; a no-response or single write never carries more
    than [mtu] bytes, a long write always carries more than [mtu] (from
    offset 0), and the length passed is the caller's or, after a
    truncation, [mtu]. *)
Theorem write_requests_are_well_formed (hc : HostCodes) (env : Env) :
  forall fuel length response d,
    Forall (write_request_ok env (m_handle d) length)
           (requests (trace (writeValue hc env fuel length response d))).
Proof. apply writeValue_requests_ok. Qed.

(** Above 65535 the long write does not carry the caller's length: a
    65556-byte write with MTU 23 goes out as a long write of 20 bytes. *)
Lemma long_write_length_is_narrowed :
  requests (trace (writeValue nimble_codes (peer []) 1 65556 true idle_descriptor))
  = [WriteLong 7 42 0 20].
Proof. reflexivity. Qed.

(** ** The overloads of writeValue *)

Lemma mtu_range (env : Env) : 0 <= mtu env < 65536.
Proof. unfold mtu. apply Z.mod_pos_bound. lia. Qed.

(** The single-byte overload never issues a long write once [mtu] is at
    least 1: every request of the call is a no-response or single write. *)
Theorem single_byte_write_is_never_long (hc : HostCodes) (env : Env) :
  1 <= mtu env ->
  forall fuel newValue response d,
    Forall (fun r => match r with
                     | WriteNoRsp _ _ _ | WriteFlat _ _ _ => True
                     | _ => False
                     end)
           (requests (trace (writeValue_uint8 hc env fuel newValue response d))).
Proof.
  intros Hm fuel newValue response d. unfold writeValue_uint8.
  eapply Forall_impl; [|apply writeValue_requests_ok].
  intros [c h o | c h l | c h l | c h o l]; cbn; intuition lia.
Qed.

Lemma single_byte_write_is_never_long_witness :
  let env := peer [mkAttempt 0 [EvWriteCB 7 261] true] in
  Forall (fun r => match r with
                   | WriteNoRsp _ _ _ | WriteFlat _ _ _ => True
                   | _ => False
                   end)
         (requests (trace (writeValue_uint8 nimble_codes env 3 "a"%byte true
                             idle_descriptor))) /\
  requests (trace (writeValue_uint8 nimble_codes env 3 "a"%byte true idle_descriptor))
  = [WriteFlat 7 42 1; WriteFlat 7 42 1].
Proof.
  intros env. split; [|reflexivity].
  apply (single_byte_write_is_never_long nimble_codes env). cbn. lia.
Defined.

(** Writing the empty string without asking for a response always takes
    the short cut, whatever the MTU: one no-response write of length 0,
    no gate, and the result is whether that issue call returned 0. *)
Theorem empty_unacknowledged_write (hc : HostCodes) (env : Env) :
  isConnected env = true ->
  forall fuel d,
    writeValue_string hc env fuel [] false d =
    mkResult (Returned (issue_rc (attempt env 0) =? 0))
             [ActRequest (WriteNoRsp (getConnId env) (m_handle d) 0)] d.
Proof.
  intros Hconn fuel d. unfold writeValue_string, writeValue.
  rewrite Hconn. cbn [negb List.length Z.of_nat].
  pose proof (mtu_range env) as Hm.
  destruct (Z.leb_spec 0 (mtu env)); [reflexivity | lia].
Qed.

Lemma empty_unacknowledged_write_witness :
  writeValue_string nimble_codes (mkEnv true 7 0 (script [])) 0 [] false
                    idle_descriptor =
  mkResult (Returned true) [ActRequest (WriteNoRsp 7 42 0)] idle_descriptor.
Proof.
  apply (empty_unacknowledged_write nimble_codes (mkEnv true 7 0 (script []))).
  reflexivity.
Defined.

(** ** The gate after a call *)

Lemma wait_woken_gate (env : Env) (g : GateId) (evs : list Event) :
  forall d s d2,
    wait env g evs d = (Some s, d2) ->
    gate g d2 = Semaphore.mk false s.
Proof.
  induction evs as [|e evs IH]; intros d s d2; cbn [wait];
    destruct (Semaphore.held (gate g d)) eqn:Hd; intros H.
  - discriminate.
  - injection H as <- <-. destruct (gate g d); cbn in *. congruence.
  - eapply IH; exact H.
  - injection H as <- <-. destruct (gate g d); cbn in *. congruence.
Qed.

Section GateAfterCall.
Variable hc : HostCodes.
Variable env : Env.

Lemma readValue_loop_gate (fuel : nat) :
  forall k retryCount d tr v,
    outcome (readValue_loop hc env fuel k retryCount d tr) = Returned v ->
    Semaphore.held (gate ReadGate (final (readValue_loop hc env fuel k retryCount d tr)))
    = false.
Proof.
  induction fuel as [|fuel IH]; intros k rc d tr v; [discriminate|].
  rewrite readValue_loop_S. unfold readValue_body.
  destruct (wait env ReadGate (events (attempt env k))
              (set_gate ReadGate (Semaphore.take (m_semaphoreReadDescrEvt d)) d))
    as [[s|] d2] eqn:Hw.
  - apply wait_woken_gate in Hw.
    split_body; cbn [outcome final]; intros H;
      try discriminate; try (rewrite Hw; reflexivity);
      try reflexivity; eapply IH; exact H.
  - split_body; cbn [outcome final]; intros H; try discriminate; reflexivity.
Qed.

Lemma writeValue_loop_gate (fuel : nat) :
  forall k retryCount length d tr b,
    outcome (writeValue_loop hc env fuel k retryCount length d tr) = Returned b ->
    Semaphore.held
      (gate WriteGate (final (writeValue_loop hc env fuel k retryCount length d tr)))
    = false.
Proof.
  induction fuel as [|fuel IH]; intros k rc len d tr b; [discriminate|].
  rewrite writeValue_loop_S. unfold writeValue_body.
  destruct (wait env WriteGate (events (attempt env k))
              (set_gate WriteGate (Semaphore.take (m_semaphoreDescWrite d)) d))
    as [[s|] d2] eqn:Hw.
  - apply wait_woken_gate in Hw.
    split_body; cbn [outcome final]; intros H;
      try discriminate; try (rewrite Hw; reflexivity);
      try reflexivity; eapply IH; exact H.
  - split_body; cbn [outcome final]; intros H; try discriminate; reflexivity.
Qed.

End GateAfterCall.

(** A call that went through its loop and returned has left its gate
    free, on every path: success, failure of the issue call, refusal,
    exhausted retries.  The next [take] finds the gate available. *)
Theorem returned_call_leaves_gate_free (hc : HostCodes) (env : Env) :
  isConnected env = true ->
  forall fuel length response d,
    (forall v, outcome (readValue hc env fuel d) = Returned v ->
               Semaphore.held (gate ReadGate (final (readValue hc env fuel d)))
               = false) /\
    (forall b, (length <=? mtu env) && negb response = false ->
               outcome (writeValue hc env fuel length response d) = Returned b ->
               Semaphore.held
                 (gate WriteGate (final (writeValue hc env fuel length response d)))
               = false).
Proof.
  intros Hconn fuel length response d. unfold readValue, writeValue.
  rewrite Hconn. cbn [negb]. split.
  - intros v. apply readValue_loop_gate.
  - intros b ->. apply writeValue_loop_gate.
Qed.

Lemma returned_call_leaves_gate_free_witness :
  let env := peer [mkAttempt 0 [EvReadCB 7 3 None; EvWriteCB 7 3] false] in
  Semaphore.held (gate ReadGate (final (readValue nimble_codes env 2 idle_descriptor)))
  = false /\
  Semaphore.held
    (gate WriteGate (final (writeValue nimble_codes env 2 30 true idle_descriptor)))
  = false.
Proof.
  intros env.
  pose proof (returned_call_leaves_gate_free nimble_codes env eq_refl
                2%nat 30 true idle_descriptor) as (Hr & Hw).
  split.
  - exact (Hr [] eq_refl).
  - exact (Hw false eq_refl eq_refl).
Defined.

(** ** What a successful result stands for *)

Lemma switch_case_done_inv (hc : HostCodes) (s : Z) :
  switch_case hc s = CaseDone -> s = 0 \/ s = BLE_HS_EDONE hc.
Proof.
  unfold switch_case.
  destruct (Z.eqb_spec s 0); [auto|].
  destruct (Z.eqb_spec s (BLE_HS_EDONE hc)); [auto|].
  cbn [orb]. split_body; discriminate.
Qed.

Lemma switch_case_not_long_inv (hc : HostCodes) (s : Z) :
  switch_case hc s = CaseNotLong -> s = HS_ATT_NOT_LONG hc.
Proof.
  unfold switch_case.
  destruct ((s =? 0) || (s =? BLE_HS_EDONE hc)); [discriminate|].
  destruct (Z.eqb_spec s (HS_ATT_NOT_LONG hc)); [auto|].
  split_body; discriminate.
Qed.

Section Soundness.
Variable hc : HostCodes.
Variable env : Env.

Lemma writeValue_loop_true (fuel : nat) :
  forall k retryCount length d tr,
    0 <= retryCount ->
    outcome (writeValue_loop hc env fuel k retryCount length d tr) = Returned true ->
    exists j s,
      issue_rc (attempt env j) = 0 /\
      completion env WriteGate (events (attempt env j)) = Some s /\
      (s = 0 \/ s = BLE_HS_EDONE hc).
Proof.
  induction fuel as [|fuel IH]; intros k rc len d tr Hrc; [discriminate|].
  rewrite writeValue_loop_S.
  destruct (Z.eq_dec (issue_rc (attempt env k)) 0) as [Hi|Hi].
  - destruct (writeValue_body_waited hc env (writeValue_loop hc env fuel)
                k rc len d tr Hi Hrc) as (d2 & _ & _ & ->).
    destruct (completion env WriteGate (events (attempt env k))) as [s|] eqn:Hc;
      [|discriminate].
    destruct (switch_case hc s) eqn:Hs; try discriminate.
    + intros _. exists k, s. auto using switch_case_done_inv.
    + apply IH. lia.
    + destruct (Z.eqb_spec rc 0); [discriminate|].
      destruct (secure_ok (attempt env k)); [|discriminate].
      apply IH. lia.
  - rewrite writeValue_body_issue_failed by exact Hi. discriminate.
Qed.

Lemma readValue_loop_value (fuel : nat) :
  forall k retryCount d tr v,
    outcome (readValue_loop hc env fuel k retryCount d tr) = Returned v ->
    v <> [] ->
    v = m_value (final (readValue_loop hc env fuel k retryCount d tr)) /\
    exists j s,
      issue_rc (attempt env j) = 0 /\
      completion env ReadGate (events (attempt env j)) = Some s /\
      (s = 0 \/ s = BLE_HS_EDONE hc \/ s = HS_ATT_NOT_LONG hc).
Proof.
  induction fuel as [|fuel IH]; intros k rc d tr v; [discriminate|].
  rewrite readValue_loop_S.
  destruct (Z.eq_dec (issue_rc (attempt env k)) 0) as [Hi|Hi].
  - destruct (readValue_body_waited hc env (readValue_loop hc env fuel)
                k rc d tr Hi) as (d2 & _ & _ & ->).
    destruct (completion env ReadGate (events (attempt env k))) as [s|] eqn:Hc;
      [|discriminate].
    destruct (switch_case hc s) eqn:Hs; cbn [outcome final].
    + intros [= <-] _. split; [reflexivity|]. exists k, s.
      destruct (switch_case_done_inv hc s Hs); auto.
    + intros [= <-] _. split; [reflexivity|]. exists k, s.
      pose proof (switch_case_not_long_inv hc s Hs). auto.
    + destruct (Z.eqb_spec rc 0); [intros [= <-] Hv; congruence|].
      destruct (secure_ok (attempt env k)); [|intros [= <-] Hv; congruence].
      apply IH.
    + intros [= <-] Hv; congruence.
  - rewrite readValue_body_issue_failed by exact Hi.
    cbn [outcome]. intros [= <-] Hv; congruence.
Qed.

End Soundness.

(** [writeValue] returns true only when the transport accepted a request
    and reported success for it: on the short cut the no-response issue
    call returned 0; otherwise some attempt of the call was issued with
    result 0 and completed with status 0 or [BLE_HS_EDONE].  A
    disconnected client never gets true. *)
Theorem write_true_means_acknowledged (hc : HostCodes) (env : Env) :
  forall fuel length response d,
    outcome (writeValue hc env fuel length response d) = Returned true ->
    isConnected env = true /\
    exists j,
      issue_rc (attempt env j) = 0 /\
      ((length <=? mtu env) && negb response = true \/
       exists s, completion env WriteGate (events (attempt env j)) = Some s /\
                 (s = 0 \/ s = BLE_HS_EDONE hc)).
Proof.
  intros fuel length response d. unfold writeValue.
  destruct (isConnected env); cbn [negb]; [|discriminate].
  destruct ((length <=? mtu env) && negb response).
  - cbn [outcome]. intros [= H]. split; [reflexivity|].
    exists 0%nat. apply Z.eqb_eq in H. auto.
  - intros H. split; [reflexivity|].
    destruct (writeValue_loop_true hc env fuel 0 1 length d [] ltac:(lia) H)
      as (j & s & Hi & Hc & Hs).
    exists j. split; [exact Hi|]. right. exists s. auto.
Qed.

Lemma write_true_means_acknowledged_witness :
  let env := peer [mkAttempt 0 [EvWriteCB 7 267] false;
                   mkAttempt 0 [EvWriteCB 7 14] false] in
  isConnected env = true /\
  exists j,
    issue_rc (attempt env j) = 0 /\
    ((30 <=? mtu env) && negb true = true \/
     exists s, completion env WriteGate (events (attempt env j)) = Some s /\
               (s = 0 \/ s = BLE_HS_EDONE nimble_codes)).
Proof.
  intros env.
  apply (write_true_means_acknowledged nimble_codes env 2 30 true idle_descriptor).
  reflexivity.
Defined.

(** [readValue] returns a non-empty byte sequence only when some attempt
    of the call was issued with result 0 and completed with status 0,
    [BLE_HS_EDONE] or the not-long status; what it returns is then the
    content of [m_value]. *)
Theorem read_value_means_accepted (hc : HostCodes) (env : Env) :
  forall fuel d v,
    outcome (readValue hc env fuel d) = Returned v ->
    v <> [] ->
    isConnected env = true /\
    v = m_value (final (readValue hc env fuel d)) /\
    exists j s,
      issue_rc (attempt env j) = 0 /\
      completion env ReadGate (events (attempt env j)) = Some s /\
      (s = 0 \/ s = BLE_HS_EDONE hc \/ s = HS_ATT_NOT_LONG hc).
Proof.
  intros fuel d v. unfold readValue.
  destruct (isConnected env); cbn [negb].
  - intros H Hv. split; [reflexivity|].
    apply (readValue_loop_value hc env fuel 0 1 (set_value [] d) [] v H Hv).
  - cbn [outcome]. intros [= <-] Hv. congruence.
Qed.

Lemma read_value_means_accepted_witness :
  let env := late_refusal_peer in
  isConnected env = true /\
  ["A"; "B"]%byte = m_value (final (readValue nimble_codes env 2 used_descriptor)) /\
  exists j s,
    issue_rc (attempt env j) = 0 /\
    completion env ReadGate (events (attempt env j)) = Some s /\
    (s = 0 \/ s = BLE_HS_EDONE nimble_codes \/ s = HS_ATT_NOT_LONG nimble_codes).
Proof.
  intros env.
  apply (read_value_means_accepted nimble_codes env 2 used_descriptor
           ["A"; "B"]%byte eq_refl).
  discriminate.
Defined.

(** ** Release and truncation on the write side *)

(** [releaseSemaphores] also wakes a write that sits in wait: it returns
    false after the request it had issued, when status 1 is none of the
    switch labels. *)
Theorem release_wakes_blocked_write (hc : HostCodes) (env : Env)
        (pre post : list Event) (length : Z) (response : bool) :
  ~ In 1 (case_labels hc) ->
  isConnected env = true ->
  (length <=? mtu env) && negb response = false ->
  issue_rc (attempt env 0) = 0 ->
  events (attempt env 0) = pre ++ EvRelease :: post ->
  completion env WriteGate pre = None ->
  forall fuel d,
    outcome (writeValue hc env (S fuel) length response d) = Returned false /\
    trace (writeValue hc env (S fuel) length response d) =
    [ActTake WriteGate; ActRequest (write_request env length d); ActWait WriteGate].
Proof.
  intros H1 Hconn Hslow Hi He Hpre fuel d.
  assert (Hc : completion env WriteGate (events (attempt env 0)) = Some 1).
  { rewrite He, completion_app_none by exact Hpre. reflexivity. }
  unfold writeValue. rewrite Hconn, Hslow. cbn [negb]. rewrite writeValue_loop_S.
  destruct (writeValue_body_waited hc env (writeValue_loop hc env fuel)
              0 1 length d [] Hi ltac:(lia)) as (d2 & _ & _ & ->).
  rewrite Hc, (switch_case_unlisted hc 1 H1). auto.
Qed.

Lemma release_wakes_blocked_write_witness :
  let env := peer [mkAttempt 0 [EvWriteCB 8 0; EvRelease] false] in
  outcome (writeValue nimble_codes env 1 30 false idle_descriptor) = Returned false /\
  trace (writeValue nimble_codes env 1 30 false idle_descriptor) =
  [ActTake WriteGate; ActRequest (WriteLong 7 42 0 30); ActWait WriteGate].
Proof.
  intros env.
  assert (H1 : ~ In 1 (case_labels nimble_codes)) by (cbn; intuition discriminate).
  apply (release_wakes_blocked_write nimble_codes env [EvWriteCB 8 0] [] 30 false
           H1 eq_refl eq_refl eq_refl eq_refl eq_refl 0%nat idle_descriptor).
Defined.

(** The length set after a not-long completion is [mtu] whatever the
    length was: when an acknowledged write of fewer than [mtu] bytes is
    answered with the not-long status, the next request is a single write
    of [mtu] bytes, more than the caller passed. *)
Theorem not_long_on_short_write_sends_mtu_bytes (hc : HostCodes) (env : Env)
        (length : Z) :
  case_labels_distinct hc ->
  isConnected env = true ->
  length < mtu env ->
  issue_rc (attempt env 0) = 0 ->
  completion env WriteGate (events (attempt env 0)) = Some (HS_ATT_NOT_LONG hc) ->
  forall fuel d,
  exists later,
    requests (trace (writeValue hc env (S (S fuel)) length true d)) =
    WriteFlat (getConnId env) (m_handle d) length
    :: WriteFlat (getConnId env) (m_handle d) (mtu env)
    :: later.
Proof.
  intros Hl Hconn Hlen Hi Hc fuel d.
  unfold writeValue. rewrite Hconn. cbn [negb]. rewrite andb_false_r.
  rewrite writeValue_loop_S.
  destruct (writeValue_body_waited hc env (writeValue_loop hc env (S fuel))
              0 1 length d [] Hi ltac:(lia)) as (d2 & _ & Hh & ->).
  rewrite Hc, (switch_case_not_long hc Hl).
  destruct (writeValue_loop_first_request hc env fuel 1 1 (mtu env) d2
              ([] ++ [ActTake WriteGate;
                      ActRequest (write_request env length d);
                      ActWait WriteGate]) ltac:(lia)) as (suf & ->).
  exists (requests suf).
  rewrite requests_app. unfold write_request at 1 2. rewrite Hh.
  destruct (Z.gtb_spec length (mtu env)); [lia|].
  destruct (Z.gtb_spec (mtu env) (mtu env)); [lia|].
  reflexivity.
Qed.

Lemma not_long_on_short_write_sends_mtu_bytes_witness :
  let env := peer [mkAttempt 0 [EvWriteCB 7 267] false] in
  exists later,
    requests (trace (writeValue nimble_codes env 2 2 true idle_descriptor)) =
    WriteFlat 7 42 2 :: WriteFlat 7 42 20 :: later.
Proof.
  intros env.
  apply (not_long_on_short_write_sends_mtu_bytes nimble_codes env 2
           nimble_labels_distinct eq_refl).
  - cbn. lia.
  - reflexivity.
  - reflexivity.
Defined.

(** ** What a call does not depend on *)

Section Independence.
Variable hc : HostCodes.
Variable env : Env.

Lemma readValue_loop_same_start (fuel : nat) :
  forall k retryCount d d' tr,
    m_handle d = m_handle d' ->
    m_value d = m_value d' ->
    outcome (readValue_loop hc env fuel k retryCount d tr)
    = outcome (readValue_loop hc env fuel k retryCount d' tr) /\
    trace (readValue_loop hc env fuel k retryCount d tr)
    = trace (readValue_loop hc env fuel k retryCount d' tr).
Proof.
  induction fuel as [|fuel IH]; intros k rc d d' tr Hh Hv; [auto|].
  rewrite !readValue_loop_S.
  destruct (Z.eq_dec (issue_rc (attempt env k)) 0) as [Hi|Hi].
  - destruct (readValue_body_waited hc env (readValue_loop hc env fuel)
                k rc d tr Hi) as (d2 & Hv2 & Hh2 & ->).
    destruct (readValue_body_waited hc env (readValue_loop hc env fuel)
                k rc d' tr Hi) as (d2' & Hv2' & Hh2' & ->).
    assert (Hvv : m_value d2 = m_value d2') by congruence.
    rewrite <- Hh, Hvv.
    destruct (completion env ReadGate (events (attempt env k))) as [s|]; [|auto].
    destruct (switch_case hc s); auto.
    destruct (rc =? 0); [auto|].
    destruct (secure_ok (attempt env k)); [|auto].
    apply IH; congruence.
  - rewrite !readValue_body_issue_failed by exact Hi.
    rewrite <- Hh. auto.
Qed.

Lemma writeValue_loop_same_start (fuel : nat) :
  forall k retryCount length d d' tr,
    0 <= retryCount ->
    m_handle d = m_handle d' ->
    outcome (writeValue_loop hc env fuel k retryCount length d tr)
    = outcome (writeValue_loop hc env fuel k retryCount length d' tr) /\
    trace (writeValue_loop hc env fuel k retryCount length d tr)
    = trace (writeValue_loop hc env fuel k retryCount length d' tr).
Proof.
  induction fuel as [|fuel IH]; intros k rc len d d' tr Hrc Hh; [auto|].
  rewrite !writeValue_loop_S.
  assert (Hreq : write_request env len d = write_request env len d')
    by (unfold write_request; rewrite Hh; reflexivity).
  destruct (Z.eq_dec (issue_rc (attempt env k)) 0) as [Hi|Hi].
  - destruct (writeValue_body_waited hc env (writeValue_loop hc env fuel)
                k rc len d tr Hi Hrc) as (d2 & _ & Hh2 & ->).
    destruct (writeValue_body_waited hc env (writeValue_loop hc env fuel)
                k rc len d' tr Hi Hrc) as (d2' & _ & Hh2' & ->).
    rewrite <- Hreq.
    destruct (completion env WriteGate (events (attempt env k))) as [s|]; [|auto].
    destruct (switch_case hc s); auto.
    + apply IH; [lia | congruence].
    + destruct (Z.eqb_spec rc 0); [auto|].
      destruct (secure_ok (attempt env k)); [|auto].
      apply IH; [lia | congruence].
  - rewrite !writeValue_body_issue_failed by exact Hi.
    rewrite <- Hreq. auto.
Qed.

(** Callbacks of other connections are no-ops on the descriptor. *)
Lemma deliver_stale (e : Event) (d : Descriptor) :
  stale env e = true -> deliver env e d = d.
Proof.
  destruct e as [c st attr | c st |]; cbn [stale deliver]; intros H;
    [| | discriminate];
    unfold onReadCB, onWriteCB; rewrite H; reflexivity.
Qed.

Lemma wait_filter_stale (g : GateId) (evs : list Event) :
  forall d,
    wait env g (filter (fun e => negb (stale env e)) evs) d = wait env g evs d.
Proof.
  induction evs as [|e evs IH]; intros d; [reflexivity|].
  cbn [filter].
  destruct (Semaphore.held (gate g d)) eqn:Hd;
    [|rewrite !wait_free by exact Hd; reflexivity].
  destruct (stale env e) eqn:He; cbn [negb].
  - rewrite IH. cbn [wait]. rewrite Hd, (deliver_stale e d He). reflexivity.
  - cbn [wait]. rewrite Hd. apply IH.
Qed.

Lemma wait_drop_stale (g : GateId) (evs : list Event) :
  forall d, wait (drop_stale env) g evs d = wait env g evs d.
Proof.
  induction evs as [|e evs IH]; intros d; [reflexivity|].
  cbn [wait]. destruct (Semaphore.held (gate g d)); [|reflexivity].
  change (deliver (drop_stale env) e d) with (deliver env e d). apply IH.
Qed.

Lemma readValue_body_drop_stale loop loop' k retryCount d tr :
  (forall k rc d tr, loop' k rc d tr = loop k rc d tr) ->
  readValue_body hc (drop_stale env) loop' k retryCount d tr =
  readValue_body hc env loop k retryCount d tr.
Proof.
  intros Hloop. unfold readValue_body.
  change (getConnId (drop_stale env)) with (getConnId env).
  change (issue_rc (attempt (drop_stale env) k)) with (issue_rc (attempt env k)).
  change (secure_ok (attempt (drop_stale env) k)) with (secure_ok (attempt env k)).
  change (events (attempt (drop_stale env) k))
    with (filter (fun e => negb (stale env e)) (events (attempt env k))).
  rewrite wait_drop_stale, wait_filter_stale.
  split_body; rewrite ?Hloop; reflexivity.
Qed.

Lemma writeValue_body_drop_stale loop loop' k retryCount length d tr :
  (forall k rc len d tr, loop' k rc len d tr = loop k rc len d tr) ->
  writeValue_body hc (drop_stale env) loop' k retryCount length d tr =
  writeValue_body hc env loop k retryCount length d tr.
Proof.
  intros Hloop. unfold writeValue_body.
  change (mtu (drop_stale env)) with (mtu env).
  change (getConnId (drop_stale env)) with (getConnId env).
  change (issue_rc (attempt (drop_stale env) k)) with (issue_rc (attempt env k)).
  change (secure_ok (attempt (drop_stale env) k)) with (secure_ok (attempt env k)).
  change (events (attempt (drop_stale env) k))
    with (filter (fun e => negb (stale env e)) (events (attempt env k))).
  rewrite wait_drop_stale, wait_filter_stale.
  split_body; rewrite ?Hloop; reflexivity.
Qed.

Lemma readValue_loop_drop_stale (fuel : nat) :
  forall k retryCount d tr,
    readValue_loop hc (drop_stale env) fuel k retryCount d tr =
    readValue_loop hc env fuel k retryCount d tr.
Proof.
  induction fuel as [|fuel IH]; intros; [reflexivity|].
  rewrite !readValue_loop_S. apply readValue_body_drop_stale. exact IH.
Qed.

Lemma writeValue_loop_drop_stale (fuel : nat) :
  forall k retryCount length d tr,
    writeValue_loop hc (drop_stale env) fuel k retryCount length d tr =
    writeValue_loop hc env fuel k retryCount length d tr.
Proof.
  induction fuel as [|fuel IH]; intros; [reflexivity|].
  rewrite !writeValue_loop_S. apply writeValue_body_drop_stale. exact IH.
Qed.

End Independence.

(** What a call returns and what it asks of the transport depend on the
    descriptor only through its handle: the value left by an earlier read
    and the status an earlier give (a completion, a late
    [releaseSemaphores]) left on the free gates do not reach the call. *)
Theorem call_ignores_residue (hc : HostCodes) (env : Env) (d d' : Descriptor) :
  m_handle d = m_handle d' ->
  Semaphore.held (gate ReadGate d) = false ->
  Semaphore.held (gate WriteGate d) = false ->
  Semaphore.held (gate ReadGate d') = false ->
  Semaphore.held (gate WriteGate d') = false ->
  forall fuel length response,
    (outcome (readValue hc env fuel d) = outcome (readValue hc env fuel d') /\
     trace (readValue hc env fuel d) = trace (readValue hc env fuel d')) /\
    (outcome (writeValue hc env fuel length response d)
     = outcome (writeValue hc env fuel length response d') /\
     trace (writeValue hc env fuel length response d)
     = trace (writeValue hc env fuel length response d')).
Proof.
  intros Hh _ _ _ _ fuel length response. unfold readValue, writeValue.
  destruct (isConnected env); cbn [negb]; [|auto]. split.
  - apply readValue_loop_same_start; [exact Hh | reflexivity].
  - destruct ((length <=? mtu env) && negb response).
    + cbn [outcome trace]. rewrite Hh. auto.
    + apply writeValue_loop_same_start; [lia | exact Hh].
Qed.

Lemma call_ignores_residue_witness :
  let env := peer [mkAttempt 0 [EvReadCB 7 0 (Some ["a"%byte]); EvReadCB 7 14 None]
                             false] in
  let d' := releaseSemaphores used_descriptor in
  outcome (readValue nimble_codes env 1 idle_descriptor)
  = outcome (readValue nimble_codes env 1 d') /\
  outcome (readValue nimble_codes env 1 d') = Returned ["a"%byte].
Proof.
  intros env d'. split; [|reflexivity].
  exact (proj1 (proj1 (call_ignores_residue nimble_codes env idle_descriptor d'
                         eq_refl eq_refl eq_refl eq_refl eq_refl 1%nat 0 false))).
Defined.

(** Callbacks that carry another connection's handle have no influence on
    a call: removing them from everything the transport delivers leaves
    the result, the trace and the final descriptor of [readValue] and
    [writeValue] unchanged. *)
Theorem stale_callbacks_do_not_matter (hc : HostCodes) (env : Env) :
  forall fuel length response d,
    readValue hc (drop_stale env) fuel d = readValue hc env fuel d /\
    writeValue hc (drop_stale env) fuel length response d
    = writeValue hc env fuel length response d.
Proof.
  intros fuel length response d. unfold readValue, writeValue.
  change (isConnected (drop_stale env)) with (isConnected env).
  change (mtu (drop_stale env)) with (mtu env).
  change (getConnId (drop_stale env)) with (getConnId env).
  change (issue_rc (attempt (drop_stale env) 0)) with (issue_rc (attempt env 0)).
  rewrite readValue_loop_drop_stale, writeValue_loop_drop_stale. auto.
Qed.

(** ** readUInt8, readUInt16, readUInt32 *)

Lemma uint8_of_range (b : byte) : 0 <= uint8_of b < 256.
Proof.
  unfold uint8_of. pose proof (Stdlib.Strings.Byte.to_N_bounded b). lia.
Qed.

Lemma le_uint_range (bs : list byte) :
  0 <= le_uint bs < 256 ^ Z.of_nat (List.length bs).
Proof.
  induction bs as [|b bs IH]; [cbn; lia|].
  cbn [le_uint List.length]. rewrite Nat2Z.inj_succ, Z.pow_succ_r by lia.
  pose proof (uint8_of_range b). lia.
Qed.

Lemma le_uint_app (bs cs : list byte) :
  le_uint (bs ++ cs) = le_uint bs + 256 ^ Z.of_nat (List.length bs) * le_uint cs.
Proof.
  induction bs as [|b bs IH]; [cbn [le_uint app List.length Z.of_nat]; lia|].
  cbn [le_uint app List.length]. rewrite IH, Nat2Z.inj_succ, Z.pow_succ_r by lia.
  ring.
Qed.

(** A longer prefix read as a little-endian integer extends a shorter
    one in its high bytes. *)
Lemma le_uint_firstn_mod (m n : nat) (bs : list byte) :
  (m <= n)%nat -> (m <= List.length bs)%nat ->
  le_uint (firstn n bs) mod 256 ^ Z.of_nat m = le_uint (firstn m bs).
Proof.
  intros Hmn Hm.
  replace (firstn n bs) with (firstn m bs ++ firstn (n - m) (skipn m bs)).
  - rewrite le_uint_app, length_firstn, Nat.min_l by exact Hm.
    rewrite Z.mul_comm, Z.mod_add by lia.
    apply Z.mod_small.
    pose proof (le_uint_range (firstn m bs)) as H.
    rewrite length_firstn, Nat.min_l in H by exact Hm. exact H.
  - rewrite <- (firstn_skipn m bs) at 3.
    rewrite firstn_app, length_firstn, Nat.min_l by exact Hm.
    rewrite (firstn_all2 (n := n)) by (rewrite length_firstn; lia).
    reflexivity.
Qed.

Lemma outcome_map_result {A B : Type} (f : A -> B) (r : Result A) (a : A) :
  outcome r = Returned a -> outcome (map_result f r) = Returned (f a).
Proof. intros H. unfold map_result. cbn [outcome]. rewrite H. reflexivity. Qed.

Lemma outcome_map_result_inv {A B : Type} (f : A -> B) (r : Result A) (b : B) :
  outcome (map_result f r) = Returned b ->
  exists a, outcome r = Returned a /\ b = f a.
Proof.
  unfold map_result. cbn [outcome].
  destruct (outcome r) as [a| |]; try discriminate.
  intros [= <-]. exists a. auto.
Qed.

(** The three integer reads never leave their width: [readUInt8] returns
    a value below 2^8, [readUInt16] below 2^16, [readUInt32] below 2^32,
    whatever the read delivered. *)
Theorem readUInt_results_fit_width (hc : HostCodes) (env : Env) :
  forall fuel d n,
    (outcome (readUInt8 hc env fuel d) = Returned n -> 0 <= n < 2 ^ 8) /\
    (outcome (readUInt16 hc env fuel d) = Returned n -> 0 <= n < 2 ^ 16) /\
    (outcome (readUInt32 hc env fuel d) = Returned n -> 0 <= n < 2 ^ 32).
Proof.
  intros fuel d n. unfold readUInt8, readUInt16, readUInt32.
  change (2 ^ 8) with 256. change (2 ^ 16) with (256 ^ Z.of_nat 2).
  change (2 ^ 32) with (256 ^ Z.of_nat 4).
  split; [|split]; intros Ho;
    apply outcome_map_result_inv in Ho; destruct Ho as (value & _ & ->).
  - destruct (1 <=? List.length value)%nat; [|lia].
    pose proof (uint8_of_range (nth 0 value x00)). lia.
  - destruct (Nat.leb_spec 2 (List.length value)); [|cbn; lia].
    pose proof (le_uint_range (firstn 2 value)) as Hb.
    rewrite length_firstn, Nat.min_l in Hb by lia. exact Hb.
  - destruct (Nat.leb_spec 4 (List.length value)); [|cbn; lia].
    pose proof (le_uint_range (firstn 4 value)) as Hb.
    rewrite length_firstn, Nat.min_l in Hb by lia. exact Hb.
Qed.

Lemma readUInt_results_fit_width_witness :
  let env := peer [mkAttempt 0 [EvReadCB 7 0 (Some [x01; x02; x03; x04]);
                                EvReadCB 7 14 None] false] in
  outcome (readUInt32 nimble_codes env 1 idle_descriptor)
  = Returned (1 + 256 * (2 + 256 * (3 + 256 * 4))) /\
  0 <= 1 + 256 * (2 + 256 * (3 + 256 * 4)) < 2 ^ 32.
Proof.
  intros env. split; [reflexivity|].
  exact (proj2 (proj2 (readUInt_results_fit_width nimble_codes env 1 idle_descriptor
                         (1 + 256 * (2 + 256 * (3 + 256 * 4))))) eq_refl).
Defined.

(** On a value of at least four bytes the three reads agree: [readUInt16]
    is the low half of [readUInt32] and [readUInt8] the low byte of
    [readUInt16] (the first byte of the value is the least significant).
    On a value shorter than its width a read returns 0, as it does on
    every failed read. *)
Theorem readUInt_widths_agree (hc : HostCodes) (env : Env) :
  forall fuel d value,
    outcome (readValue hc env fuel d) = Returned value ->
    exists n8 n16 n32,
      outcome (readUInt8 hc env fuel d) = Returned n8 /\
      outcome (readUInt16 hc env fuel d) = Returned n16 /\
      outcome (readUInt32 hc env fuel d) = Returned n32 /\
      ((4 <= List.length value)%nat -> n16 = n32 mod 2 ^ 16 /\ n8 = n16 mod 2 ^ 8) /\
      ((List.length value < 4)%nat -> n32 = 0) /\
      ((List.length value < 2)%nat -> n16 = 0) /\
      (value = [] -> n8 = 0).
Proof.
  intros fuel d value Hv. unfold readUInt8, readUInt16, readUInt32.
  do 3 eexists. do 3 (split; [apply outcome_map_result; exact Hv|]).
  cbv beta.
  split; [intros H4; split | split; [|split]].
  - destruct (Nat.leb_spec 2 (List.length value)); [|lia].
    destruct (Nat.leb_spec 4 (List.length value)); [|lia].
    symmetry. apply (le_uint_firstn_mod 2 4); lia.
  - destruct (Nat.leb_spec 1 (List.length value)); [|lia].
    destruct (Nat.leb_spec 2 (List.length value)); [|lia].
    destruct value as [|b value]; [cbn in *; lia|].
    symmetry. rewrite (le_uint_firstn_mod 1 2) by (cbn [List.length]; lia).
    cbn. lia.
  - intros H. destruct (Nat.leb_spec 4 (List.length value)); [lia | reflexivity].
  - intros H. destruct (Nat.leb_spec 2 (List.length value)); [lia | reflexivity].
  - intros ->. reflexivity.
Qed.

Lemma readUInt_widths_agree_witness :
  let env := peer [mkAttempt 0 [EvReadCB 7 0 (Some [x01; x02; x03; x04]);
                                EvReadCB 7 14 None] false] in
  exists n8 n16 n32,
    outcome (readUInt8 nimble_codes env 1 idle_descriptor) = Returned n8 /\
    outcome (readUInt16 nimble_codes env 1 idle_descriptor) = Returned n16 /\
    outcome (readUInt32 nimble_codes env 1 idle_descriptor) = Returned n32 /\
    ((4 <= 4)%nat -> n16 = n32 mod 2 ^ 16 /\ n8 = n16 mod 2 ^ 8) /\
    ((4 < 4)%nat -> n32 = 0) /\
    ((4 < 2)%nat -> n16 = 0) /\
    ([x01; x02; x03; x04] = [] -> n8 = 0).
Proof.
  intros env.
  exact (readUInt_widths_agree nimble_codes env 1 idle_descriptor
           [x01; x02; x03; x04] eq_refl).
Defined.

(** ** toString *)

Lemma all_below_sound (bits : nat) :
  forall f, all_below bits f = true ->
            forall z, 0 <= z < 2 ^ Z.of_nat bits -> f z = true.
Proof.
  induction bits as [|b IH]; intros f H z Hz.
  - cbn in Hz. replace z with 0 by lia. exact H.
  - cbn [all_below] in H. apply andb_true_iff in H. destruct H as (H0 & H1).
    rewrite Nat2Z.inj_succ, Z.pow_succ_r in Hz by lia.
    destruct (Z.eq_dec (z mod 2) 0) as [Hm|Hm].
    + replace z with (2 * (z / 2)) by (pose proof (Z.div_mod z 2); lia).
      apply (IH _ H0). pose proof (Z.div_mod z 2). lia.
    + replace z with (2 * (z / 2) + 1)
        by (pose proof (Z.div_mod z 2); pose proof (Z.mod_pos_bound z 2); lia).
      apply (IH _ H1).
      pose proof (Z.div_mod z 2). pose proof (Z.mod_pos_bound z 2). lia.
Qed.

(** The five characters [snprintf] may write hold every [uint16_t]
    handle: checked on all 65536 of them. *)
Lemma snprintf_d_holds_uint16 (h : Z) :
  0 <= h < 65536 ->
  Diagnostics.snprintf_d 6 h = DecimalString.NilZero.string_of_int (Z.to_int h).
Proof.
  intros Hh. apply String.eqb_eq.
  apply (all_below_sound 16
           (fun z => String.eqb (Diagnostics.snprintf_d 6 z)
                       (DecimalString.NilZero.string_of_int (Z.to_int z))));
    [vm_compute; reflexivity | exact Hh].
Qed.

Section ToStringFacts.
Import String.

Lemma string_append_assoc (s1 s2 s3 : string) :
  append (append s1 s2) s3 = append s1 (append s2 s3).
Proof.
  induction s1 as [|c s1 IH]; cbn [append]; [reflexivity|].
  rewrite IH. reflexivity.
Qed.

(** [toString] prints the handle in full: for every 16-bit handle the
    six-character buffer is large enough, the result is the fixed text
    around the UUID followed by all decimal digits of the handle, and
    reading those digits back gives the handle. *)
Theorem toString_prints_whole_handle (uuid : String.string) (d : Descriptor) :
  0 <= m_handle d < 65536 ->
  Diagnostics.toString uuid d =
  String.append "Descriptor: uuid: "%string
    (String.append uuid
       (String.append ", handle: "%string
          (DecimalString.NilZero.string_of_int (Z.to_int (m_handle d))))) /\
  option_map Z.of_int
    (DecimalString.NilZero.int_of_string (Diagnostics.snprintf_d 6 (m_handle d)))
  = Some (m_handle d).
Proof.
  intros Hh. unfold Diagnostics.toString.
  rewrite (snprintf_d_holds_uint16 (m_handle d) Hh). split.
  - rewrite !string_append_assoc. reflexivity.
  - rewrite DecimalString.NilZero.isi.
    + cbn [option_map]. rewrite DecimalZ.of_to. reflexivity.
    + destruct (m_handle d) as [|p|p]; cbn; try discriminate.
      intros [= H]. exact (DecimalPos.Unsigned.to_uint_nonnil p H).
    + destruct (m_handle d) as [|p|p]; cbn; try discriminate. lia.
Qed.

Lemma toString_prints_whole_handle_witness :
  Diagnostics.toString "0x2902"%string (mkDescriptor 65535 [] (Semaphore.mk false 0)
                                   (Semaphore.mk false 0))
  = "Descriptor: uuid: 0x2902, handle: 65535"%string /\
  option_map Z.of_int
    (DecimalString.NilZero.int_of_string (Diagnostics.snprintf_d 6 65535))
  = Some 65535.
Proof.
  apply (toString_prints_whole_handle "0x2902"%string
           (mkDescriptor 65535 [] (Semaphore.mk false 0) (Semaphore.mk false 0))).
  cbn. lia.
Defined.

End ToStringFacts.

(** ** Which path a write takes *)

(** A connected write above [mtu] starts by taking the gate and issuing a
    long write from offset 0, whether or not a response was asked for; a
    write that fits and asks for a response starts with an acknowledged
    single write. *)
Theorem write_path_selection (hc : HostCodes) (env : Env) (length : Z) :
  isConnected env = true ->
  forall fuel response d,
    (mtu env < length ->
     exists later,
       trace (writeValue hc env (S fuel) length response d) =
       ActTake WriteGate
       :: ActRequest (WriteLong (getConnId env) (m_handle d) 0 (length mod 65536))
       :: later) /\
    (length <= mtu env -> response = true ->
     exists later,
       trace (writeValue hc env (S fuel) length response d) =
       ActTake WriteGate
       :: ActRequest (WriteFlat (getConnId env) (m_handle d) length) :: later).
Proof.
  intros Hconn fuel response d.
  destruct (writeValue_loop_first_request hc env fuel 0 1 length d []
              ltac:(lia)) as (suf & Hsuf).
  unfold writeValue. rewrite Hconn. cbn [negb]. split.
  - intros Hlen. destruct (Z.leb_spec length (mtu env)); [lia|]. cbn [andb].
    rewrite Hsuf. unfold write_request.
    destruct (Z.gtb_spec length (mtu env)); [|lia]. exists suf. reflexivity.
  - intros Hlen ->. rewrite andb_false_r.
    rewrite Hsuf. unfold write_request.
    destruct (Z.gtb_spec length (mtu env)); [lia|]. exists suf. reflexivity.
Qed.

Lemma write_path_selection_witness :
  let env := peer [] in
  (exists later,
      trace (writeValue nimble_codes env 1 21 false idle_descriptor) =
      ActTake WriteGate :: ActRequest (WriteLong 7 42 0 21) :: later) /\
  (exists later,
      trace (writeValue nimble_codes env 1 20 true idle_descriptor) =
      ActTake WriteGate :: ActRequest (WriteFlat 7 42 20) :: later).
Proof.
  intros env. split.
  - apply (proj1 (write_path_selection nimble_codes env 21 eq_refl
                    0%nat false idle_descriptor)).
    cbn. lia.
  - apply (proj2 (write_path_selection nimble_codes env 20 eq_refl
                    0%nat true idle_descriptor)).
    + cbn. lia.
    + reflexivity.
Defined.

